(** * HL7 message processor: a shallow embedding of [hl7.py]

    The class [HL7] keeps one message in four forms: the raw text, an
    embedded list (nested lists of strings), a flat dictionary keyed by
    dotted paths, and a JSON-like dictionary of padded lists.  This file
    embeds the conversions between those forms and states what the
    specification says about them.

    Conventions of the embedding:
    - a Python [str] is a list of characters; a character is a code point
      below 256 (the type [ascii]);
    - a nested list of strings is the type [tree];
    - a [dict] keeps its insertion order and is an association list;
      the counter table of [_sort_segments], whose order is never
      observed, is a [gmap];
    - a raised exception is the result [None]. *)

From Stdlib Require Import Ascii String ZArith Decimal DecimalNat.
From stdpp Require Import base option list gmap strings.

Local Open Scope char_scope.
Local Open Scope list_scope.
Local Open Scope nat_scope.

(** ** Python strings *)

Abbreviation str := (list ascii).

(** A literal. *)
Definition lit (text : string) : str := list_ascii_of_string text.

Definition LF : ascii := "010".
Definition CR : ascii := "013".

Module Py.

(** [sep.join(parts)] *)
Fixpoint join (sep : str) (parts : list str) : str :=
  match parts with
  | [] => []
  | [p] => p
  | p :: ps => p ++ sep ++ join sep ps
  end.

(** [text.split(sep)] for a one-character separator, as its first piece
    and the remaining pieces: the result of [split] is never empty. *)
Fixpoint split_ne (sep : ascii) (text : str) : str * list str :=
  match text with
  | [] => ([], [])
  | c :: rest =>
      let '(p, ps) := split_ne sep rest in
      if decide (c = sep) then ([], p :: ps) else (c :: p, ps)
  end.

Definition split (sep : ascii) (text : str) : list str :=
  let '(p, ps) := split_ne sep text in p :: ps.

(** The line boundaries of [str.splitlines] among the code points below
    256: LF, VT, FF, CR, FS, GS, RS and NEL; CR LF is one boundary. *)
Definition is_linebreak (c : ascii) : bool :=
  let n := nat_of_ascii c in
  (n =? 10) || (n =? 11) || (n =? 12) || (n =? 13)
  || (n =? 28) || (n =? 29) || (n =? 30) || (n =? 133).

(** [splitlines_aux line text]: [line] is the current line, kept in
    order; no empty last line is produced. *)
Fixpoint splitlines_aux (line : str) (text : str) : list str :=
  match text with
  | [] => match line with [] => [] | _ => [line] end
  | c :: rest =>
      if is_linebreak c then
        match rest with
        | c' :: rest' =>
            if bool_decide (c = CR) && bool_decide (c' = LF)
            then line :: splitlines_aux [] rest'
            else line :: splitlines_aux [] rest
        | [] => line :: splitlines_aux [] rest
        end
      else splitlines_aux (line ++ [c]) rest
  end.

Definition splitlines (text : str) : list str := splitlines_aux [] text.

(** [str.isspace] on one code point below 256. *)
Definition is_space (c : ascii) : bool :=
  let n := nat_of_ascii c in
  ((9 <=? n) && (n <=? 13)) || ((28 <=? n) && (n <=? 32))
  || (n =? 133) || (n =? 160).

Fixpoint lstrip (text : str) : str :=
  match text with
  | c :: rest => if is_space c then lstrip rest else text
  | [] => []
  end.

Definition rstrip (text : str) : str := rev (lstrip (rev text)).

Definition strip (text : str) : str := rstrip (lstrip text).

(** [str(n)] for a non-negative integer. *)
Fixpoint digits (d : Decimal.uint) : str :=
  match d with
  | Nil => []
  | D0 d => "0" :: digits d
  | D1 d => "1" :: digits d
  | D2 d => "2" :: digits d
  | D3 d => "3" :: digits d
  | D4 d => "4" :: digits d
  | D5 d => "5" :: digits d
  | D6 d => "6" :: digits d
  | D7 d => "7" :: digits d
  | D8 d => "8" :: digits d
  | D9 d => "9" :: digits d
  end.

Definition str_of_nat (n : nat) : str := digits (Nat.to_uint n).

Definition digit_value (c : ascii) : option Z :=
  let n := nat_of_ascii c in
  if (48 <=? n) && (n <=? 57) then Some (Z.of_nat (n - 48)) else None.

(** The digits of [int(text)] after the sign: decimal digits, with
    single underscores allowed between two digits.  [acc] is the value
    read so far and [after_digit] tells whether the previous character
    was a digit. *)
Fixpoint int_digits (acc : Z) (after_digit : bool) (text : str) : option Z :=
  match text with
  | [] => if after_digit then Some acc else None
  | c :: rest =>
      match digit_value c with
      | Some v => int_digits (acc * 10 + v)%Z true rest
      | None =>
          if bool_decide (c = "_") && after_digit then int_digits acc false rest
          else None
      end
  end.

(** The whitespace that [int] skips around the digits: among the code
    points below 128 those of the C locale (HT, LF, VT, FF, CR and the
    space, not FS, GS, RS and US, which [str.strip] removes), and above
    them NEL and the no-break space. *)
Definition is_int_space (c : ascii) : bool :=
  let n := nat_of_ascii c in
  ((9 <=? n) && (n <=? 13)) || (n =? 32) || (n =? 133) || (n =? 160).

Fixpoint int_lstrip (text : str) : str :=
  match text with
  | c :: rest => if is_int_space c then int_lstrip rest else text
  | [] => []
  end.

(** The default of [sys.get_int_max_str_digits()]. *)
Definition int_max_str_digits : nat := 4300.

(** [int(text)]: surrounding whitespace, an optional sign, digits, of
    which there are at most [int_max_str_digits].  [None] is
    [ValueError]. *)
Definition int (text : str) : option Z :=
  let signed := rev (int_lstrip (rev (int_lstrip text))) in
  let '(negative, body) :=
    match signed with
    | "-" :: rest => (true, rest)
    | "+" :: rest => (false, rest)
    | rest => (false, rest)
    end in
  if int_max_str_digits
     <? length (filter (λ c, is_Some (digit_value c)) body)
  then None
  else (if negative then Z.opp else id) <$> int_digits 0 false body.

End Py.

(** ** Insertion-ordered dictionaries *)

Abbreviation pydict V := (list (str * V)).

Module Dict.
Section ops.
Context {V : Type}.

Fixpoint get (d : pydict V) (k : str) : option V :=
  match d with
  | [] => None
  | (k', v) :: rest => if decide (k' = k) then Some v else get rest k
  end.

(** [d[k] = v]: an existing key keeps its place. *)
Fixpoint set (d : pydict V) (k : str) (v : V) : pydict V :=
  match d with
  | [] => [(k, v)]
  | (k', v') :: rest =>
      if decide (k' = k) then (k, v) :: rest else (k', v') :: set rest k v
  end.

(** [d.update(other)] *)
Definition update (d other : pydict V) : pydict V :=
  foldl (λ acc kv, set acc kv.1 kv.2) d other.

Definition keys (d : pydict V) : list str := d.*1.
Definition values (d : pydict V) : list V := d.*2.

End ops.
End Dict.

(** ** The embedded list *)

(** A value of the embedded list: a string, or a list of such values. *)
#[local] Unset Elimination Schemes.
Inductive tree : Type :=
| Leaf (text : str)
| Node (items : list tree).
#[local] Set Elimination Schemes.

(** What [for item in value] yields: the items of a list, the characters
    of a string. *)
Definition iter_items (value : tree) : list tree :=
  match value with
  | Node items => items
  | Leaf text => (λ c, Leaf [c]) <$> text
  end.

(** ** The object *)

Record HL7 : Type := mkHL7 {
  hl7_message : str;
  _segments : list str;
  elist : option (list tree);
  dict : option (pydict str);
  json : option (pydict (list tree));
  hl7 : option str
}.

Definition encoding_characters : str := ["^"; "~"; "\"; "&"].

(** *** [_sort_segments] *)

Definition sort_step (acc : gmap str nat * list str) (segment : str)
  : gmap str nat * list str :=
  let '(seen, sorted_segments) := acc in
  match seen !! segment with
  | Some n =>
      (<[segment := S n]> seen,
       sorted_segments ++ [segment ++ "_" :: Py.str_of_nat (S n)])
  | None => (<[segment := 0]> seen, sorted_segments ++ [segment])
  end.

Definition sort_segments (segments : list str) : list str :=
  (foldl sort_step (∅, []) segments).2.

Definition _sort_segments (self : HL7) : HL7 :=
  mkHL7 (hl7_message self) (sort_segments (_segments self))
        (elist self) (dict self) (json self) (hl7 self).

(** *** [hl7_to_list] *)

(** The body of [for field in fields]. *)
Definition parse_field (segment_data : list tree) (field : str) : list tree :=
  if decide (field = encoding_characters) then
    segment_data ++ [Leaf ["|"]; Leaf encoding_characters]
  else if decide ("~" ∈ field) then
    segment_data ++
      [Node ((λ repetition, Node (Leaf <$> Py.split "^" repetition))
               <$> Py.split "~" field)]
  else if decide (length (Py.split "^" field) = 1) then
    segment_data ++ (Leaf <$> Py.split "^" field)
  else
    segment_data ++ [Node (Leaf <$> Py.split "^" field)].

(** The body of [for segment in hl7_message.splitlines()], on the pair of
    [self._segments] and [data]. *)
Definition parse_segment (acc : list str * list tree) (segment : str)
  : list str * list tree :=
  let '(segments, data) := acc in
  let '(segment_id, fields) := Py.split_ne "|" segment in
  (segments ++ [segment_id], data ++ [Node (foldl parse_field [] fields)]).

Definition hl7_to_list (self : HL7) (message : option str) : HL7 :=
  let text :=
    match message with
    | Some (c :: m) => c :: m
    | _ => hl7_message self
    end in
  let '(segments, data) :=
    foldl parse_segment (_segments self, []) (Py.splitlines text) in
  let self := mkHL7 (hl7_message self) segments
                    (elist self) (dict self) (json self) (hl7 self) in
  let self := _sort_segments self in
  mkHL7 (hl7_message self) (_segments self)
        (Some data) (dict self) (json self) (hl7 self).

(** *** [_gen_hl7] and [list_to_hl7] *)

Definition separators : list str := [[]; [LF]; ["|"]; ["^"]; ["~"]].

(** The separator written after a string at [depth]; [None] is the
    [IndexError] of the tuple. *)
Definition item_separator (depth : nat) : option str :=
  separators !! (if depth <? 3 then depth + 1 else depth).

(** The separator that ends the text of a list at [depth]. *)
Definition end_separator (depth : nat) : option str :=
  separators !! (if depth <? 3 then depth else depth + 1).

(** [return f'{message[:-1]}{...}'] *)
Definition gen_hl7_return (depth : nat) (message : str) : option str :=
  sep ← end_separator depth; Some (removelast message ++ sep).

(** The branch of the loop body for an item that is a string. *)
Definition gen_hl7_text (depth : nat) (message item : str) : option str :=
  if decide (item = ["|"]) then Some message
  else sep ← item_separator depth; Some (message ++ item ++ sep).

(** [seg_pointer += 1 if seg_pointer < len(self._segments)-1 else 0] *)
Definition next_pointer (segments : list str) (seg_pointer : nat) : nat :=
  if (Z.of_nat seg_pointer <? Z.of_nat (length segments) - 1)%Z
  then seg_pointer + 1 else seg_pointer.

(** The loop [for item in elist] over the items of a list; [rec] is the
    recursive call on an item that is a list. *)
Definition gen_hl7_loop (rec : tree → option str) (segments : list str)
    (depth : nat) (next_segment : bool)
  : list tree → str → nat → option str :=
  fix loop (items : list tree) (message : str) (seg_pointer : nat)
    {struct items} : option str :=
    match items with
    | [] => gen_hl7_return depth message
    | Leaf text :: rest =>
        message ← gen_hl7_text depth message text;
        loop rest message seg_pointer
    | (Node _ as item) :: rest =>
        if next_segment then
          sub ← rec item;
          loop rest (message ++ sub) seg_pointer
        else
          name ← segments !! seg_pointer;
          let segment := (Py.split_ne "_" name).1 in
          sub ← rec item;
          loop rest (message ++ segment ++ ["|"] ++ sub)
               (next_pointer segments seg_pointer)
    end.

Fixpoint _gen_hl7 (segments : list str) (elist : tree) (depth : nat)
    (next_segment : bool) {struct elist} : option str :=
  match elist with
  | Leaf text =>
      message ← foldl (λ acc c, message ← acc; gen_hl7_text depth message [c])
                      (Some []) text;
      gen_hl7_return depth message
  | Node items =>
      gen_hl7_loop (λ item, _gen_hl7 segments item (depth + 1) true)
                   segments depth next_segment items [] 0
  end.

Definition list_to_hl7 (self : HL7) : option HL7 :=
  data ← elist self;
  message ← _gen_hl7 (_segments self) (Node data) 0 false;
  Some (mkHL7 (hl7_message self) (_segments self)
              (elist self) (dict self) (json self) (Some message)).

(** *** [_gen_dict] and [list_to_dict] *)

(** [f'{path}.{index+1}' if path else str(self._segments[index])] *)
Definition new_path (segments : list str) (path : str) (index : nat)
  : option str :=
  match path with
  | [] => segments !! index
  | _ => Some (path ++ "." :: Py.str_of_nat (index + 1))
  end.

(** The loop [for index, item in enumerate(data)]; [rec] is the recursive
    call. *)
Definition gen_dict_loop (rec : tree → str → option (pydict str))
    (segments : list str) (path : str)
  : list tree → nat → pydict str → option (pydict str) :=
  fix loop (items : list tree) (index : nat) (hl7_dictionary : pydict str)
    {struct items} : option (pydict str) :=
    match items with
    | [] => Some hl7_dictionary
    | item :: rest =>
        p ← new_path segments path index;
        sub ← rec item p;
        loop rest (index + 1) (Dict.update hl7_dictionary sub)
    end.

Fixpoint _gen_dict (segments : list str) (data : tree) (path : str)
    {struct data} : option (pydict str) :=
  match data with
  | Leaf text => Some [(path, text)]
  | Node items =>
      gen_dict_loop (_gen_dict segments) segments path items 0 []
  end.

(** [list_to_dict].  On an object without an embedded list the code does
    not raise: it stores the dictionary that has the one key [''] with
    the value [None], which is no dictionary of texts; that state, which
    no constructed object is in, is the result [None] here, and no
    statement below is about it. *)
Definition list_to_dict (self : HL7) : option HL7 :=
  data ← elist self;
  d ← _gen_dict (_segments self) (Node data) [];
  Some (mkHL7 (hl7_message self) (_segments self)
              (elist self) (Some d) (json self) (hl7 self)).

(** *** [_gen_json], [list_to_json] and [json_to_list] *)

Fixpoint _gen_json (data : tree) : tree :=
  match data with
  | Node items => Node (Leaf [] :: (_gen_json <$> items))
  | Leaf text => Leaf text
  end.

(** The body of [for item in self.elist], on the pair of
    [segment_pointer] and [dictionary]. *)
Definition json_step (segments : list str)
    (acc : option (nat * pydict (list tree))) (item : tree)
  : option (nat * pydict (list tree)) :=
  '(segment_pointer, dictionary) ← acc;
  segment ← segments !! segment_pointer;
  Some (segment_pointer + 1,
        Dict.set dictionary segment ([] ++ iter_items (_gen_json item))).

Definition list_to_json (self : HL7) : option HL7 :=
  data ← elist self;
  '(_, dictionary) ← foldl (json_step (_segments self)) (Some (0, [])) data;
  Some (mkHL7 (hl7_message self) (_segments self)
              (elist self) (dict self) (Some dictionary) (hl7 self)).

(** [remove_fillers]: a string is kept, a list loses its first item. *)
Fixpoint remove_fillers_item (item : tree) : tree :=
  match item with
  | Leaf text => Leaf text
  | Node items =>
      Node match items with
           | [] => []
           | _ :: rest => remove_fillers_item <$> rest
           end
  end.

Definition remove_fillers (elist : list tree) : list tree :=
  remove_fillers_item <$> elist.

(** [json_to_list] returns a list and assigns nothing: the object it
    leaves behind is the first component. *)
Definition json_to_list (self : HL7) : option (HL7 * list tree) :=
  j ← json self;
  Some (self, remove_fillers (Node <$> Dict.values j)).

(** *** The constructor *)

Definition __init__ (message : str) : option HL7 :=
  let self := mkHL7 (Py.strip message) [] None None None None in
  let self := hl7_to_list self (Some message) in
  self ← list_to_dict self;
  list_to_json self.

(** *** [dict_to_list] *)

(** The local variables of [dict_to_list] that live across iterations. *)
Record buffers : Type := mkBuffers {
  segments : pydict (list tree);
  subfield_list : list tree;
  repeats : list tree;
  repeats_list : list tree;
  prev_segment : str;
  prev_depth : nat;
  prev_subfield_position : Z;
  prev_repeat_position : Z;
  count : nat
}.

Definition initial_buffers : buffers :=
  mkBuffers [] [] [] [] [] 1 1 1 1.

(** [segments[segment_id].append(item)]; [None] is [KeyError]. *)
Definition append_to (segs : pydict (list tree)) (segment_id : str)
    (item : tree) : option (pydict (list tree)) :=
  l ← Dict.get segs segment_id; Some (Dict.set segs segment_id (l ++ [item])).

(** [int(key.split('.')[i])] *)
Definition position (key : str) (i : nat) : option Z :=
  part ← Py.split "." key !! i; Py.int part.

(** [repeats_list.append(repeats) if repeats else None] *)
Definition close_repeats (b : buffers) : list tree :=
  match repeats b with
  | [] => repeats_list b
  | _ => repeats_list b ++ [Node (repeats b)]
  end.

(** The two flushes shared by the branch for a key back at depth 1 and by
    the branch for the last key: the repetition group goes to
    [segments[segment_id]]; the subfields go to [segments[prev_segment]]
    when the segment has changed. *)
Definition flush (b : buffers) (segment_id : str) : option buffers :=
  b ← match repeats_list b with
      | [] => Some b
      | _ =>
          segs ← append_to (segments b) segment_id (Node (close_repeats b));
          Some (mkBuffers segs (subfield_list b) [] [] (prev_segment b)
                  (prev_depth b) (prev_subfield_position b) 1 (count b))
      end;
  match subfield_list b with
  | [] => Some b
  | _ =>
      segs ← (if decide (segment_id ≠ prev_segment b)
              then append_to (segments b) (prev_segment b)
                             (Node (subfield_list b))
              else append_to (segments b) segment_id
                             (Node (subfield_list b)));
      Some (mkBuffers segs [] (repeats b) (repeats_list b) (prev_segment b)
              (prev_depth b) 1 (prev_repeat_position b) (count b))
  end.

(** The three branches on [current_depth] against [prev_depth]. *)
Definition same_depth (b : buffers) (segment_id key value : str)
    (current_depth : nat) : option buffers :=
  match current_depth with
  | 1 =>
      segs ← append_to (segments b) segment_id (Leaf value);
      Some (mkBuffers segs (subfield_list b) (repeats b) (repeats_list b)
              (prev_segment b) (prev_depth b) (prev_subfield_position b)
              (prev_repeat_position b) (count b))
  | 2 =>
      p ← position key 1;
      if (prev_subfield_position b <? p)%Z then
        segs ← append_to (segments b) segment_id (Node (subfield_list b));
        Some (mkBuffers segs [Leaf value] (repeats b) (repeats_list b)
                (prev_segment b) (prev_depth b) p
                (prev_repeat_position b) (count b))
      else
        Some (mkBuffers (segments b) (subfield_list b ++ [Leaf value])
                (repeats b) (repeats_list b) (prev_segment b) (prev_depth b)
                (prev_subfield_position b) (prev_repeat_position b) (count b))
  | 3 =>
      p ← position key 2;
      if (prev_repeat_position b <? p)%Z then
        Some (mkBuffers (segments b) (subfield_list b) [Leaf value]
                (repeats_list b ++ [Node (repeats b)]) (prev_segment b)
                (prev_depth b) (prev_subfield_position b) p (count b))
      else
        Some (mkBuffers (segments b) (subfield_list b)
                (repeats b ++ [Leaf value]) (repeats_list b) (prev_segment b)
                (prev_depth b) (prev_subfield_position b)
                (prev_repeat_position b) (count b))
  | _ => Some b
  end.

Definition deeper (b : buffers) (segment_id key value : str)
    (current_depth : nat) : option buffers :=
  match current_depth with
  | 2 =>
      p ← position key 1;
      Some (mkBuffers (segments b) (subfield_list b ++ [Leaf value])
              (repeats b) (repeats_list b) (prev_segment b) (prev_depth b)
              p (prev_repeat_position b) (count b))
  | 3 =>
      '(segs, subs) ←
        match subfield_list b with
        | [] => Some (segments b, [])
        | _ =>
            segs ← append_to (segments b) segment_id (Node (subfield_list b));
            Some (segs, [])
        end;
      p ← position key 2;
      Some (mkBuffers segs subs (repeats b ++ [Leaf value]) (repeats_list b)
              (prev_segment b) (prev_depth b) (prev_subfield_position b)
              p (count b))
  | _ => Some b
  end.

Definition shallower (b : buffers) (segment_id key value : str)
    (current_depth : nat) : option buffers :=
  match current_depth with
  | 1 =>
      b ← flush b segment_id;
      segs ← append_to (segments b) segment_id (Leaf value);
      Some (mkBuffers segs (subfield_list b) (repeats b) (repeats_list b)
              (prev_segment b) (prev_depth b) (prev_subfield_position b)
              (prev_repeat_position b) (count b))
  | 2 =>
      segs ← append_to (segments b) segment_id (Node (close_repeats b));
      p ← position key 1;
      Some (mkBuffers segs (subfield_list b ++ [Leaf value]) [] []
              (prev_segment b) (prev_depth b) p 1 (count b))
  | _ => Some b
  end.

(** The body of [for key, value in self.dict.items()]. *)
Definition dict_step (dict_size : nat) (b : buffers) (entry : str * str)
  : option buffers :=
  let '(key, value) := entry in
  let segment_id := (Py.split_ne "." key).1 in
  let current_depth := length (Py.split "." key) - 1 in
  let b :=
    match Dict.get (segments b) segment_id with
    | Some _ => b
    | None =>
        mkBuffers (Dict.set (segments b) segment_id []) (subfield_list b)
          (repeats b) (repeats_list b) (prev_segment b) (prev_depth b)
          (prev_subfield_position b) (prev_repeat_position b) (count b)
    end in
  b ← (if current_depth =? prev_depth b
       then same_depth b segment_id key value current_depth
       else if prev_depth b <? current_depth
       then deeper b segment_id key value current_depth
       else shallower b segment_id key value current_depth);
  b ← (if count b =? dict_size then flush b segment_id else Some b);
  Some (mkBuffers (segments b) (subfield_list b) (repeats b) (repeats_list b)
          segment_id current_depth (prev_subfield_position b)
          (prev_repeat_position b) (count b + 1)).

(** The loop of [dict_to_list] over the items of a dictionary. *)
Definition dict_loop (d : pydict str) : option buffers :=
  foldl (λ acc entry, b ← acc; dict_step (length d) b entry)
        (Some initial_buffers) d.

Definition dict_to_list (self : HL7) : option HL7 :=
  d ← dict self;
  b ← dict_loop d;
  Some (mkHL7 (hl7_message self) (_segments self)
              (Some (Node <$> Dict.values (segments b)))
              (dict self) (json self) (hl7 self)).


(** ** Notions used by the statements *)

(** How often [x] occurs in [l]. *)
Definition occurrences (x : str) (l : list str) : nat :=
  length (filter (λ y, y = x) l).

(** The name the disambiguator gives an identifier that has already
    occurred [k] times. *)
Definition renamed (k : nat) (segment : str) : str :=
  match k with
  | 0 => segment
  | _ => segment ++ "_" :: Py.str_of_nat k
  end.

(** The raw segment identifiers of a message: the text of each line up to
    the first field delimiter. *)
Definition raw_segments (message : str) : list str :=
  (λ line, (Py.split_ne "|" line).1) <$> (Py.splitlines message).

Fixpoint leaves (t : tree) : nat :=
  match t with
  | Leaf _ => 1
  | Node items => sum_list (leaves <$> items)
  end.

(** The names of [rest] when [pre] has been read before it. *)
Fixpoint names (pre rest : list str) : list str :=
  match rest with
  | [] => []
  | x :: rest => renamed (occurrences x pre) x :: names (pre ++ [x]) rest
  end.

(** [seen] counts, for every identifier read so far, its repeats. *)
Definition counts (pre : list str) (seen : gmap str nat) : Prop :=
  ∀ x, seen !! x = match occurrences x pre with 0 => None | S k => Some k end.

(** The object that [__init__] hands to [hl7_to_list]. *)
Definition fresh (message : str) : HL7 :=
  mkHL7 (Py.strip message) [] None None None None.

(** The items that one field adds to its segment. *)
Definition field_items (field : str) : list tree := parse_field [] field.

(** The embedded list of one line. *)
Definition segment_tree (line : str) : tree :=
  Node (foldl parse_field [] (Py.split_ne "|" line).2).

(** The messages that the round trip is proved for: every line boundary is
    a new line (the docstring of [hl7_to_list]: each segment is already
    separated by new lines), and every line is a segment identifier, not
    empty and without ["_"], followed by the field delimiter and the
    fields.  This is narrower than what the specification calls
    malformed, which is the empty identifier only. *)
Definition newline_only (c : ascii) : bool :=
  negb (Py.is_linebreak c) || bool_decide (c = LF).

Definition line_ok (line : str) : bool :=
  bool_decide ("|" ∈ line)
  && bool_decide ((Py.split_ne "|" line).1 ≠ [])
  && bool_decide ("_" ∉ (Py.split_ne "|" line).1).

Definition delimited (message : str) : bool :=
  forallb newline_only message && forallb line_ok (Py.splitlines message).

(** What an item adds to the message in the loop of [_gen_hl7]. *)
Definition contribution (rec : tree → option str) (depth : nat) (item : tree)
  : option str :=
  match item with
  | Leaf text => gen_hl7_text depth [] text
  | Node _ => rec item
  end.

(** Every piece followed by [sep]. *)
Definition terminated (sep : str) (parts : list str) : str :=
  concat ((λ p, p ++ sep) <$> parts).

(** The entries of a value below a path that is not empty: one entry per
    string, in depth-first order, keyed by the path of the string. *)
Definition entries_loop (rec : tree → str → pydict str) (path : str)
  : list tree → nat → pydict str :=
  fix loop (items : list tree) (index : nat) {struct items} : pydict str :=
    match items with
    | [] => []
    | item :: rest =>
        rec item (path ++ "." :: Py.str_of_nat (index + 1))
        ++ loop rest (index + 1)
    end.

Fixpoint entries (t : tree) (path : str) {struct t} : pydict str :=
  match t with
  | Leaf text => [(path, text)]
  | Node items => entries_loop entries path items 0
  end.

(** The entries of a message: those of every segment below its name. *)
Definition flat (names : list str) (data : list tree) : pydict str :=
  concat (zip_with (λ name item, entries item name) names data).

(** A segment identifier that can head a path: not empty, and free of the
    characters ["_"] and ["."] that the names and the paths are built
    with. *)
Definition plain (segment : str) : Prop :=
  segment ≠ [] ∧ ("_" ∉ segment) ∧ ("." ∉ segment).

(** A suffix of a path: nothing, or a dot and more. *)
Definition dotted (tail : str) : Prop :=
  tail = [] ∨ ∃ tail', tail = "." :: tail'.

(** The entries of the JSON form, before equal names are merged. *)
Definition json_entries (names : list str) (data : list tree)
  : pydict (list tree) :=
  zip_with (λ name item, (name, iter_items (_gen_json item))) names data.

(** The message of the end-to-end scenario: two lines, each ended by a
    new line. *)
Definition scenario : str :=
  lit "MSH|^~\&|App|Fac" ++ [LF] ++ lit "EVN|A01|20110613083617" ++ [LF].

(** A message whose third identifier already has the form of a
    disambiguated name. *)
Definition clashing : str :=
  lit "PID|a" ++ [LF] ++ lit "PID|b" ++ [LF] ++ lit "PID_1|c".

(** A one-line message with the field of the encoding characters, and the
    object built from it. *)
Definition header : str := lit "MSH|^~\&|App".

Definition header_object : HL7 :=
  mkHL7 header [lit "MSH"]
        (Some [Node [Leaf (lit "|"); Leaf (lit "^~\&"); Leaf (lit "App")]])
        (Some [(lit "MSH.1", lit "|"); (lit "MSH.2", lit "^~\&");
               (lit "MSH.3", lit "App")])
        (Some [(lit "MSH", [Leaf []; Leaf (lit "|"); Leaf (lit "^~\&");
                            Leaf (lit "App")])])
        None.

(** A message with two repeated fields next to each other, and a message
    whose first segment ends with a repeated field. *)
Definition two_repeats : str := lit "X|a~b|c~d".

Definition repeat_then_segment : str := lit "X|a~b" ++ [LF] ++ lit "Y|c".

(** The same, with subfields in place of the repetitions. *)
Definition subfields_then_segment : str := lit "X|a^b" ++ [LF] ++ lit "Y|c".

(** ** The structure report *)

(** [' ' * indent if indent >= 0 else ''] *)
Definition padding (indent : Z) : str :=
  if (0 <=? indent)%Z then replicate (Z.to_nat indent) " " else [].

(** The line of a string of the embedded list; an empty string is shown
    as [*empty*]. *)
Definition structure_line (indent : Z) (path data : str) : str :=
  match data with
  | [] => padding indent ++ path ++ lit ": *empty*" ++ [LF]
  | _ => padding indent ++ path ++ lit ": " ++ data ++ [LF]
  end.

(** The loop [for index, item in enumerate(data)] of [_gen_structure]. *)
Definition gen_structure_loop (rec : tree → str → nat → Z → option str)
    (segments : list str) (path : str) (level : nat) (indent : Z)
  : list tree → nat → str → option str :=
  fix loop (items : list tree) (index : nat) (result : str)
    {struct items} : option str :=
    match items with
    | [] => Some result
    | item :: rest =>
        p ← new_path segments path index;
        sub ← rec item p (level + 1) (indent + 4)%Z;
        loop rest (index + 1) (result ++ sub)
    end.

Fixpoint _gen_structure (segments : list str) (data : tree) (path : str)
    (level : nat) (indent : Z) {struct data} : option str :=
  match data with
  | Leaf text => Some (structure_line indent path text)
  | Node items =>
      gen_structure_loop (_gen_structure segments) segments path level indent
                         items 0 []
  end.

(** [structure]: without an embedded list the data is [None], which is
    not a list and is false, and the report is the line of an empty
    string at the empty path. *)
Definition structure (self : HL7) : option str :=
  match elist self with
  | Some data => _gen_structure (_segments self) (Node data) [] 0 (-8)
  | None => Some (structure_line (-8) [] [])
  end.

(** ** [export] *)

(** [text.endswith(suffix)] *)
Definition endswith (text suffix : str) : bool :=
  bool_decide (drop (length text - length suffix) text = suffix).

(** [f"{filepath}{ext if not filepath.endswith(ext) else ''}"] *)
Definition with_extension (filepath ext : str) : str :=
  if endswith filepath ext then filepath else filepath ++ ext.

(** What is handed to the writer of a file: the cells of a workbook, by
    row and column; a value for [str], for [json.dump]; a text. *)
Inductive payload : Type :=
| Workbook (cells : gmap (nat * nat) str)
| Repr_dict (value : option (pydict str))
| Json_dump (value : option (pydict (list tree)))
| Repr_list (value : option (list tree))
| Text (text : str).

(** What a call of [export] does: nothing; a file written; an exception,
    before any file is opened or after the file at a path is opened. *)
Inductive exported : Type :=
| Nothing
| Written (path : str) (content : payload)
| Raised (opened : option str).

(** The cells of a worksheet of the library openpyxl, which is not part
    of the repository.  A text assigned to the value of a cell is cut
    after 32767 characters, and the assignment raises when what is left
    holds a control character other than HT, LF and CR; [None] is that
    [IllegalCharacterError]. *)
Definition illegal_character (c : ascii) : bool :=
  let n := nat_of_ascii c in
  (n <=? 8) || ((11 <=? n) && (n <=? 12)) || ((14 <=? n) && (n <=? 31)).

Definition cell_text (value : str) : option str :=
  let value := take (Z.to_nat 32767) value in
  if existsb illegal_character value then None else Some value.

(** A worksheet has the rows 1 to 1048576; reaching for a cell of another
    row raises. *)
Definition row_in_sheet (row : nat) : bool :=
  (0 <? Z.of_nat row)%Z && (Z.of_nat row <? 1048577)%Z.

(** The loop of the Excel export, on the pair of [row] and the cells;
    [None] is an exception of the worksheet. *)
Definition excel_step (acc : option (nat * gmap (nat * nat) str))
    (entry : str * str) : option (nat * gmap (nat * nat) str) :=
  '(row, cells) ← acc;
  if row_in_sheet row then
    key ← cell_text entry.1;
    value ← cell_text entry.2;
    Some (row + 1, <[(row, 2) := value]> (<[(row, 1) := key]> cells))
  else None.

Definition export (self : HL7) (format filepath : str) : exported :=
  if decide (format ∈ [lit "Excel"; lit "excel"; lit "xlsx"]) then
    match dict self with
    | None => Raised None
    | Some d =>
        match foldl excel_step (Some (1, ∅)) d with
        | Some (_, cells) =>
            Written (with_extension filepath (lit ".xlsx")) (Workbook cells)
        | None => Raised None
        end
    end
  else if decide (format ∈ [lit "dict"; lit "dictionary"]) then
    Written (filepath ++ lit ".txt") (Repr_dict (dict self))
  else if decide (format ∈ [lit "json"; lit "JSON"]) then
    Written (with_extension filepath (lit ".json")) (Json_dump (json self))
  else if decide (format ∈ [lit "Structure"; lit "structure"]) then
    match structure self with
    | Some report => Written (with_extension filepath (lit ".txt")) (Text report)
    | None => Raised (Some (with_extension filepath (lit ".txt")))
    end
  else if decide (format ∈ [lit "list"; lit "List"]) then
    Written (with_extension filepath (lit ".txt")) (Repr_list (elist self))
  else if decide (format ∈ [lit "raw"; lit "Raw"]) then
    match hl7 self with
    | Some text => Written (with_extension filepath (lit ".txt")) (Text text)
    | None => Raised (Some (with_extension filepath (lit ".txt")))
    end
  else Nothing.

(** The extension that [export] gives the files of a format. *)
Definition extension (format : str) : str :=
  if decide (format ∈ [lit "Excel"; lit "excel"; lit "xlsx"]) then lit ".xlsx"
  else if decide (format ∈ [lit "dict"; lit "dictionary"]) then lit ".txt"
  else if decide (format ∈ [lit "json"; lit "JSON"]) then lit ".json"
  else lit ".txt".

(** ** [comparison] *)





(** ** The test harness of [hl7_test.py] *)

(** The counters [passed] and [failed] and what has been written to the
    log. *)
Record harness : Type := mkHarness {
  passed : Z;
  failed : Z;
  log : list str
}.

(** [log_result]; the time of the clock, formatted, is an input. *)
Definition log_result (current_time : str) (h : harness)
    (test_type : str) (result : bool) (filename : str) : harness :=
  mkHarness (passed h) (failed h)
    (log h ++ [lit "[" ++ current_time ++ lit "][" ++ test_type ++ lit "] "
               ++ filename ++ lit ": "
               ++ (if result then lit "Passed" else lit "Failed") ++ [LF]]).

Definition compare (current_time : str) (h : harness)
    (test filename result original : str) : harness :=
  if decide (result ≠ original) then
    let h := mkHarness (passed h) (failed h + 1) (log h) in
    let h := log_result current_time h test false filename in
    mkHarness (passed h) (failed h)
      (log h ++ [filename ++ [LF; LF] ++ original ++ [LF; LF] ++ result
                 ++ [LF; LF]])
  else
    let h := mkHarness (passed h + 1) (failed h) (log h) in
    log_result current_time h test true filename.

(** [test_all_to_hl7]: the harness as the call leaves it, and the object
    when no conversion has raised. [t1], [t2] and [t3] are the times of
    the three log lines. *)
Definition test_all_to_hl7 (t1 t2 t3 : str) (h : harness) (hl7 : HL7)
    (filename : str) : harness * option HL7 :=
  let original := hl7_message hl7 in
  match list_to_hl7 hl7 with
  | None => (h, None)
  | Some hl7 =>
      let h := compare t1 h (lit "List to HL7") filename
                       (hl7_message hl7) original in
      match dict_to_list hl7 ≫= list_to_hl7 with
      | None => (h, None)
      | Some hl7 =>
          let h := compare t2 h (lit "Dict to HL7") filename
                           (hl7_message hl7) original in
          match json_to_list hl7 ≫= (λ r, list_to_hl7 r.1) with
          | None => (h, None)
          | Some hl7 =>
              (compare t3 h (lit "JSON to HL7") filename
                       (hl7_message hl7) original, Some hl7)
          end
      end
  end.

(** ** Notions used by the further statements *)

(** The shapes of the embedded list of the parser: a field is a string, a
    list of at least two strings, or a list of at least two lists of
    strings, none of them empty. *)
Definition is_leaf (item : tree) : bool :=
  match item with Leaf _ => true | Node _ => false end.

Definition repetition_shape (item : tree) : bool :=
  match item with
  | Node parts => (1 <=? length parts) && forallb is_leaf parts
  | Leaf _ => false
  end.

Definition field_shape (item : tree) : bool :=
  match item with
  | Leaf _ => true
  | Node parts =>
      (2 <=? length parts)
      && (forallb is_leaf parts || forallb repetition_shape parts)
  end.

Definition segment_shape (item : tree) : bool :=
  match item with
  | Node items => forallb field_shape items
  | Leaf _ => false
  end.

(** The text that the serializer writes for a line: its identifier up to
    the first ["_"], the field delimiter, and its fields. *)
Definition rebuilt_line (line : str) : str :=
  (Py.split_ne "_" (Py.split_ne "|" line).1).1
  ++ "|" :: Py.join ["|"] (Py.split_ne "|" line).2.

(** The number of dots of a path. *)
Definition dots (path : str) : nat := length (filter (λ c, c = ".") path).

(** The line of the structure report for an entry of the flat
    dictionary: fields are not indented, and every further level is
    indented by four more spaces. *)
Definition report_line (entry : str * str) : str :=
  structure_line (4 * Z.of_nat (dots entry.1) - 4) entry.1 entry.2.

(** [value[i]], and [value[i1][i2]...]. *)
Definition item_at (value : tree) (i : nat) : option tree :=
  iter_items value !! i.

Fixpoint index_by (value : tree) (indices : list nat) : option tree :=
  match indices with
  | [] => Some value
  | i :: rest => v ← item_at value i; index_by v rest
  end.

(** The path [name.i1.i2...]. *)
Definition path_of (name : str) (indices : list nat) : str :=
  name ++ concat ((λ i, "." :: Py.str_of_nat i) <$> indices).

(** A field without components and repetitions: the encoding characters,
    or a text free of ["^"] and ["~"]. *)
Definition simple_field (field : str) : bool :=
  bool_decide (field = encoding_characters)
  || (bool_decide ("^" ∉ field) && bool_decide ("~" ∉ field)).

(** A message of segments with plain identifiers and simple fields. *)
Definition simple_line (line : str) : bool :=
  bool_decide ("|" ∈ line)
  && bool_decide ((Py.split_ne "|" line).1 ≠ [])
  && bool_decide ("_" ∉ (Py.split_ne "|" line).1)
  && bool_decide ("." ∉ (Py.split_ne "|" line).1)
  && forallb simple_field (Py.split_ne "|" line).2.

Definition simple_message (message : str) : bool :=
  forallb simple_line (Py.splitlines message).

(** The strings that a simple field adds to its segment. *)
Definition simple_texts (field : str) : list str :=
  if decide (field = encoding_characters) then [["|"]; encoding_characters]
  else [field].

(** The segment identifier of a key, as [dict_to_list] reads it. *)
Definition key_segment (entry : str * str) : str :=
  (Py.split_ne "." entry.1).1.

(** A second message for the scenario object's comparison. *)
Definition scenario_object : HL7 :=
  mkHL7 (lit "MSH|^~\&|App|Fac" ++ [LF] ++ lit "EVN|A01|20110613083617")
        [lit "MSH"; lit "EVN"]
        (Some [Node [Leaf (lit "|"); Leaf (lit "^~\&"); Leaf (lit "App");
                     Leaf (lit "Fac")];
               Node [Leaf (lit "A01"); Leaf (lit "20110613083617")]])
        (Some [(lit "MSH.1", lit "|"); (lit "MSH.2", lit "^~\&");
               (lit "MSH.3", lit "App"); (lit "MSH.4", lit "Fac");
               (lit "EVN.1", lit "A01");
               (lit "EVN.2", lit "20110613083617")])
        (Some [(lit "MSH", [Leaf []; Leaf (lit "|"); Leaf (lit "^~\&");
                            Leaf (lit "App"); Leaf (lit "Fac")]);
               (lit "EVN", [Leaf []; Leaf (lit "A01");
                            Leaf (lit "20110613083617")])])
        None.

(** The line of an entry below a path, when the strings at the path
    itself are indented by [indent]. *)
Definition line_below (path : str) (indent : Z) (entry : str * str) : str :=
  structure_line
    (indent + 4 * (Z.of_nat (dots entry.1) - Z.of_nat (dots path)))
    entry.1 entry.2.

(** The buffers of [dict_to_list] when nothing is open. *)
Definition idle (b : buffers) : Prop :=
  subfield_list b = [] ∧ repeats b = [] ∧ repeats_list b = []
  ∧ prev_depth b = 1.

(** The identifiers of a list in the order of their first occurrence. *)
Definition add_key (keys : list str) (k : str) : list str :=
  if decide (k ∈ keys) then keys else keys ++ [k].

Definition first_occurrences (ids : list str) : list str :=
  foldl add_key [] ids.



(** Messages on which the rebuilt text is not the message: a line
    without the field delimiter, a carriage return between two segments,
    an identifier with ["_"]. *)
Definition no_delimiter : str := lit "MSH|a" ++ [LF] ++ lit "ZZZ".

Definition carriage_return : str := lit "MSH|a" ++ [CR] ++ lit "PID|b".

Definition underscore_identifier : str := lit "Z_A|a".

(** * Python strings: facts *)

Section strings.

Lemma split_ne_join sep text :
  Py.join [sep] ((Py.split_ne sep text).1 :: (Py.split_ne sep text).2) = text.
Proof.
  induction text as [|c rest IH]; [done|].
  simpl. destruct (Py.split_ne sep rest) as [p ps] eqn:E.
  simpl in IH. destruct (decide (c = sep)) as [->|Hc]; simpl.
  - by rewrite IH.
  - destruct ps; simpl in *; by rewrite IH.
Qed.

Lemma split_join sep text : Py.join [sep] (Py.split sep text) = text.
Proof.
  unfold Py.split. pose proof (split_ne_join sep text) as H.
  by destruct (Py.split_ne sep text).
Qed.

Lemma split_ne_free sep text :
  (sep ∉ (Py.split_ne sep text).1)
  ∧ Forall (λ p, sep ∉ p) (Py.split_ne sep text).2.
Proof.
  induction text as [|c rest [IH1 IH2]]; simpl.
  - split; [apply not_elem_of_nil|constructor].
  - destruct (Py.split_ne sep rest) as [p ps]; simpl in *.
    destruct (decide (c = sep)); simpl.
    + split; [apply not_elem_of_nil|by constructor].
    + split; [|done]. by intros [?|?]%elem_of_cons.
Qed.

Lemma split_free sep text : Forall (λ p, sep ∉ p) (Py.split sep text).
Proof.
  unfold Py.split. pose proof (split_ne_free sep text) as [H1 H2].
  destruct (Py.split_ne sep text). by constructor.
Qed.

Lemma split_ne_absent sep text : sep ∉ text → Py.split_ne sep text = (text, []).
Proof.
  induction text as [|c rest IH]; [done|].
  intros H. simpl. rewrite IH; [|set_solver].
  destruct (decide (c = sep)); [set_solver|done].
Qed.

Lemma split_ne_present sep text :
  sep ∈ text → (Py.split_ne sep text).2 ≠ [].
Proof.
  induction text as [|c rest IH]; [by intros ?%elem_of_nil|].
  intros H. simpl. destruct (Py.split_ne sep rest) as [p ps] eqn:E.
  destruct (decide (c = sep)); [done|]. simpl.
  apply IH. by apply elem_of_cons in H as [->|H].
Qed.

(** The first piece of a text that starts with a [sep]-free prefix
    followed by [sep]. *)
Lemma split_ne_prefix sep prefix rest :
  sep ∉ prefix → (Py.split_ne sep (prefix ++ sep :: rest)).1 = prefix.
Proof.
  induction prefix as [|c prefix IH]; intros H; simpl.
  - destruct (Py.split_ne sep rest). by rewrite decide_True.
  - destruct (Py.split_ne sep (prefix ++ sep :: rest)) as [p ps] eqn:E.
    simpl in IH. rewrite decide_False; [|set_solver].
    simpl. f_equal. apply IH. set_solver.
Qed.

Lemma split_length_1 sep text :
  length (Py.split sep text) = 1 ↔ sep ∉ text.
Proof.
  unfold Py.split. split.
  - intros H Hin. apply split_ne_present in Hin.
    destruct (Py.split_ne sep text) as [p [|??]]; done.
  - intros H. by rewrite split_ne_absent.
Qed.

Lemma split_not_nil sep text : Py.split sep text ≠ [].
Proof. unfold Py.split. by destruct (Py.split_ne sep text). Qed.

(** Two texts that agree after [sep]-free prefixes followed by [sep]. *)
Lemma app_sep_inj (sep : ascii) (a b x y : str) :
  sep ∉ a → sep ∉ b → a ++ sep :: x = b ++ sep :: y → a = b ∧ x = y.
Proof.
  revert b. induction a as [|c a IH]; intros [|d b] Ha Hb H; simpl in *.
  - by simplify_eq.
  - simplify_eq. exfalso. apply Hb. by left.
  - simplify_eq. exfalso. apply Ha. by left.
  - simplify_eq. destruct (IH b) as [-> ->]; try done.
    + intros ?. apply Ha. by right.
    + intros ?. apply Hb. by right.
Qed.

Lemma digits_inj d d' : Py.digits d = Py.digits d' → d = d'.
Proof.
  revert d'. induction d; intros []; simpl; intros H;
    try discriminate; try done; f_equal; apply IHd; by simplify_eq.
Qed.

Lemma str_of_nat_inj n m : Py.str_of_nat n = Py.str_of_nat m → n = m.
Proof.
  intros H%digits_inj.
  by rewrite <- (Unsigned.of_to n), <- (Unsigned.of_to m), H.
Qed.

End strings.

(** * The disambiguator *)

Section disambiguator.

Lemma occurrences_snoc x y pre :
  occurrences x (pre ++ [y]) =
  if decide (y = x) then S (occurrences x pre) else occurrences x pre.
Proof.
  unfold occurrences. rewrite filter_app, length_app.
  rewrite filter_cons, filter_nil.
  destruct (decide (y = x)); simpl; lia.
Qed.

Lemma counts_empty : counts [] ∅.
Proof. intros x. by rewrite lookup_empty. Qed.

Lemma sort_step_spec pre seen out x :
  counts pre seen →
  ∃ seen', sort_step (seen, out) x = (seen', out ++ [renamed (occurrences x pre) x])
           ∧ counts (pre ++ [x]) seen'.
Proof.
  intros Hc. unfold sort_step. pose proof (Hc x) as Hx.
  destruct (occurrences x pre) as [|k] eqn:Ho; rewrite Hx.
  - eexists; split; [done|]. intros y. rewrite occurrences_snoc.
    destruct (decide (x = y)) as [<-|Hne].
    + by rewrite lookup_insert_eq, Ho.
    + by rewrite lookup_insert_ne.
  - eexists; split; [done|]. intros y. rewrite occurrences_snoc.
    destruct (decide (x = y)) as [<-|Hne].
    + by rewrite lookup_insert_eq, Ho.
    + by rewrite lookup_insert_ne.
Qed.

Lemma sort_fold rest : ∀ pre seen out,
  counts pre seen →
  (foldl sort_step (seen, out) rest).2 = out ++ names pre rest.
Proof.
  induction rest as [|x rest IH]; intros pre seen out Hc; cbn [foldl names].
  - by rewrite app_nil_r.
  - destruct (sort_step_spec pre seen out x Hc) as (seen' & -> & Hc').
    rewrite (IH _ _ _ Hc'). by rewrite <- app_assoc.
Qed.

Lemma sort_segments_names ids : sort_segments ids = names [] ids.
Proof. unfold sort_segments. by rewrite (sort_fold ids [] ∅ [] counts_empty). Qed.

Lemma names_length rest : ∀ pre, length (names pre rest) = length rest.
Proof. induction rest; intros pre; simpl; [done|]. by rewrite IHrest. Qed.

Lemma names_lookup rest : ∀ pre i x,
  rest !! i = Some x →
  names pre rest !! i = Some (renamed (occurrences x (pre ++ take i rest)) x).
Proof.
  induction rest as [|y rest IH]; intros pre [|i] x H; simpl in *; try done.
  - simplify_eq. by rewrite app_nil_r.
  - rewrite (IH _ _ _ H). by rewrite <- app_assoc.
Qed.

Lemma sort_segments_lookup ids i x :
  ids !! i = Some x →
  sort_segments ids !! i = Some (renamed (occurrences x (take i ids)) x).
Proof. intros H. rewrite sort_segments_names. by apply names_lookup. Qed.

Lemma sort_segments_length ids : length (sort_segments ids) = length ids.
Proof. rewrite sort_segments_names. apply names_length. Qed.

Lemma digits_no c d : c ∈ Py.digits d → Py.digit_value c ≠ None.
Proof.
  induction d; simpl; intros H; try (by apply elem_of_nil in H);
    apply elem_of_cons in H as [->|H]; try by apply IHd.
  all: by vm_compute.
Qed.

Lemma str_of_nat_no_underscore k : "_" ∉ Py.str_of_nat k.
Proof. intros H%digits_no. by apply H. Qed.

Lemma str_of_nat_no_dot k : "." ∉ Py.str_of_nat k.
Proof. intros H%digits_no. by apply H. Qed.

Lemma occurrences_take_lt (ids : list str) i j x :
  i < j → ids !! i = Some x →
  occurrences x (take i ids) < occurrences x (take j ids).
Proof.
  intros Hij Hi.
  assert (take j ids = take i ids ++ x :: take (j - S i) (drop (S i) ids)) as ->.
  { rewrite <- (take_drop_middle ids i x Hi) at 1.
    rewrite take_app. rewrite length_take_le by (apply lookup_lt_Some in Hi; lia).
    rewrite take_ge by (rewrite length_take; lia).
    by replace (j - i) with (S (j - S i)) by lia. }
  unfold occurrences. rewrite filter_app, length_app, filter_cons.
  rewrite decide_True by done. simpl. lia.
Qed.

(** Identifiers free of ["_"] are renamed to pairwise-distinct names. *)
Lemma sort_segments_NoDup ids :
  Forall (λ x, "_" ∉ x) ids → NoDup (sort_segments ids).
Proof.
  intros Hfree. apply NoDup_alt. intros i j name Hi Hj.
  destruct (ids !! i) as [x|] eqn:Ex;
    [|apply lookup_lt_Some in Hi; apply lookup_ge_None in Ex;
      rewrite sort_segments_length in Hi; lia].
  destruct (ids !! j) as [y|] eqn:Ey;
    [|apply lookup_lt_Some in Hj; apply lookup_ge_None in Ey;
      rewrite sort_segments_length in Hj; lia].
  rewrite (sort_segments_lookup _ _ _ Ex) in Hi.
  rewrite (sort_segments_lookup _ _ _ Ey) in Hj. simplify_eq.
  rename Hi into Hj.
  pose proof (Forall_lookup_1 _ _ _ _ Hfree Ex) as Hx.
  pose proof (Forall_lookup_1 _ _ _ _ Hfree Ey) as Hy. simpl in Hx, Hy.
  assert (x = y ∧ occurrences x (take i ids) = occurrences y (take j ids))
    as [<- Hocc].
  { unfold renamed in Hj.
    destruct (occurrences x (take i ids)) as [|k] eqn:Ei,
             (occurrences y (take j ids)) as [|k'] eqn:Ej.
    - done.
    - subst x. exfalso. apply Hx. set_solver.
    - subst y. exfalso. apply Hy. set_solver.
    - apply app_sep_inj in Hj as [-> Hk]; [|done..].
      apply str_of_nat_inj in Hk. by rewrite Hk. }
  destruct (Nat.lt_trichotomy i j) as [Hlt|[->|Hlt]]; [|done|].
  - pose proof (occurrences_take_lt ids i j x Hlt Ex). lia.
  - pose proof (occurrences_take_lt ids j i x Hlt Ey). lia.
Qed.

End disambiguator.

(** * The serializer on the lists of the parser *)

Section serializer.

Context (segs : list str).

Lemma gen_hl7_Node items depth next :
  _gen_hl7 segs (Node items) depth next =
  gen_hl7_loop (λ item, _gen_hl7 segs item (depth + 1) true)
               segs depth next items [] 0.
Proof. done. Qed.

Lemma gen_hl7_text_app depth message text c :
  gen_hl7_text depth [] text = Some c →
  gen_hl7_text depth message text = Some (message ++ c).
Proof.
  unfold gen_hl7_text. destruct (decide (text = ["|"])).
  - intros [= <-]. by rewrite app_nil_r.
  - destruct (item_separator depth); simpl; [|done]. by intros [= <-].
Qed.

(** With [next_segment] set, the loop appends the contributions of the
    items and returns. *)
Lemma loop_contributions rec depth items cs :
  Forall2 (λ item c, contribution rec depth item = Some c) items cs →
  ∀ message ptr,
    gen_hl7_loop rec segs depth true items message ptr =
    gen_hl7_return depth (message ++ concat cs).
Proof.
  induction 1 as [|item c items cs Hc _ IH]; intros message ptr;
    cbn [gen_hl7_loop concat].
  - by rewrite app_nil_r.
  - destruct item as [text|sub]; cbn [contribution] in Hc.
    + rewrite (gen_hl7_text_app _ _ _ _ Hc). cbn. rewrite IH.
      by rewrite app_assoc.
    + rewrite Hc. cbn. rewrite IH. by rewrite app_assoc.
Qed.

Lemma removelast_terminated sep parts :
  removelast (terminated [sep] parts) = Py.join [sep] parts.
Proof.
  unfold terminated. induction parts as [|p [|q parts] IH]; [done|..].
  - cbn. rewrite app_nil_r. apply removelast_last.
  - cbn [fmap list_fmap concat Py.join] in *.
    rewrite removelast_app; [by rewrite IH, <- app_assoc|].
    by destruct q.
Qed.

Lemma split_subset sep text p c : p ∈ Py.split sep text → c ∈ p → c ∈ text.
Proof.
  intros Hp Hc. rewrite <- (split_join sep text).
  revert Hp. generalize (Py.split sep text). intros parts.
  induction parts as [|q [|q' parts] IH]; intros Hp.
  - by apply elem_of_nil in Hp.
  - apply list_elem_of_singleton in Hp as ->. done.
  - cbn [Py.join]. apply elem_of_cons in Hp as [->|Hp].
    + apply elem_of_app. by left.
    + apply elem_of_app. right. apply elem_of_app. right. by apply IH.
Qed.

(** A list of strings, none of them the marker ["|"]. *)
Lemma gen_leaves depth sep esep comps :
  item_separator depth = Some [sep] → end_separator depth = Some esep →
  Forall (λ c, c ≠ ["|"]) comps →
  _gen_hl7 segs (Node (Leaf <$> comps)) depth true =
  Some (Py.join [sep] comps ++ esep).
Proof.
  intros Hsep Hend Hcomps. rewrite gen_hl7_Node.
  rewrite (loop_contributions _ _ _ ((λ c, c ++ [sep]) <$> comps)).
  - unfold gen_hl7_return. rewrite Hend. cbn.
    by rewrite <- (removelast_terminated sep comps).
  - induction Hcomps as [|c comps Hc _ IH]; constructor; [|done].
    cbn. unfold gen_hl7_text. rewrite decide_False by done.
    by rewrite Hsep.
Qed.

Lemma no_bar_not_marker (text : str) : "|" ∉ text → text ≠ ["|"].
Proof. intros H ->. apply H. by left. Qed.

Lemma split_not_marker sep text :
  "|" ∉ text → Forall (λ c, c ≠ ["|"]) (Py.split sep text).
Proof.
  intros H. apply Forall_forall. intros p Hp. apply no_bar_not_marker.
  intros Hc. apply H. by eapply split_subset.
Qed.

(** The text of a field that has repetitions. *)
Lemma gen_repetitions field :
  "|" ∉ field →
  _gen_hl7 segs
    (Node ((λ repetition, Node (Leaf <$> Py.split "^" repetition))
             <$> Py.split "~" field)) 2 true = Some (field ++ ["|"]).
Proof.
  intros Hbar. rewrite gen_hl7_Node.
  rewrite (loop_contributions _ _ _ ((λ r, r ++ ["~"]) <$> Py.split "~" field)).
  - unfold gen_hl7_return. cbn.
    change (concat _) with (terminated ["~"] (Py.split "~" field)).
    by rewrite removelast_terminated, split_join.
  - assert (Forall (λ r, "|" ∉ r) (Py.split "~" field)) as Hreps.
    { apply Forall_forall. intros r Hr Hc. apply Hbar.
      by eapply split_subset. }
    induction Hreps as [|r reps Hr _ IH]; constructor; [|done].
    cbn [contribution].
    rewrite (gen_leaves 3 "^" ["~"]); [|done|done|by apply split_not_marker].
    by rewrite split_join.
Qed.

(** What the items of one field contribute to the text of their segment:
    the field, followed by the field delimiter. *)
Lemma field_contributions field :
  "|" ∉ field →
  ∃ cs, Forall2 (λ item c,
                   contribution (λ item, _gen_hl7 segs item 2 true) 1 item
                   = Some c) (field_items field) cs
        ∧ concat cs = field ++ ["|"].
Proof.
  intros Hbar. unfold field_items, parse_field.
  destruct (decide (field = encoding_characters)) as [->|Henc].
  { exists [[]; encoding_characters ++ ["|"]]. split; [|done].
    repeat constructor. }
  destruct (decide ("~" ∈ field)) as [Hrep|Hrep].
  { exists [field ++ ["|"]]. split; [|by cbn; rewrite app_nil_r].
    repeat constructor. cbn [app contribution]. by apply gen_repetitions. }
  destruct (decide (length (Py.split "^" field) = 1)) as [Hone|Hone].
  { apply split_length_1 in Hone. unfold Py.split.
    rewrite (split_ne_absent _ _ Hone).
    exists [field ++ ["|"]]. split; [|by cbn; rewrite app_nil_r].
    repeat constructor. cbn. unfold gen_hl7_text.
    by rewrite decide_False by by apply no_bar_not_marker. }
  exists [field ++ ["|"]]. split; [|by cbn; rewrite app_nil_r].
  repeat constructor. cbn [app contribution].
  rewrite (gen_leaves 2 "^" ["|"]); [|done|done|by apply split_not_marker].
  by rewrite split_join.
Qed.

Lemma parse_field_app acc field :
  parse_field acc field = acc ++ field_items field.
Proof. unfold field_items, parse_field. by repeat case_decide. Qed.

Lemma parse_fields fields : ∀ acc,
  foldl parse_field acc fields = acc ++ concat (field_items <$> fields).
Proof.
  induction fields as [|f fields IH]; intros acc; cbn.
  - by rewrite app_nil_r.
  - by rewrite IH, parse_field_app, <- app_assoc.
Qed.

(** The text of a segment: its fields joined by the field delimiter, and a
    new line. *)
Lemma gen_segment line :
  _gen_hl7 segs (segment_tree line) 1 true =
  Some (Py.join ["|"] (Py.split_ne "|" line).2 ++ [LF]).
Proof.
  unfold segment_tree. rewrite gen_hl7_Node, parse_fields. cbn [app].
  pose proof (split_ne_free "|" line) as [_ Hfree].
  revert Hfree. generalize (Py.split_ne "|" line).2. intros fields Hfree.
  assert (∃ cs, Forall2 (λ item c,
                   contribution (λ item, _gen_hl7 segs item (1 + 1) true) 1 item
                   = Some c) (concat (field_items <$> fields)) cs
                ∧ concat cs = terminated ["|"] fields) as (cs & Hcs & Hcat).
  { induction Hfree as [|f fields Hf _ (cs & Hcs & Hcat)].
    - exists []. by split; [constructor|].
    - destruct (field_contributions f Hf) as (cf & Hcf & Hcatf).
      exists (cf ++ cs). split.
      + cbn. by apply Forall2_app.
      + rewrite concat_app, Hcatf, Hcat. done. }
  rewrite (loop_contributions _ _ _ cs Hcs). unfold gen_hl7_return. cbn.
  by rewrite Hcat, removelast_terminated.
Qed.

(** A disambiguated name gives back its raw identifier. *)
Lemma renamed_raw k x : "_" ∉ x → (Py.split_ne "_" (renamed k x)).1 = x.
Proof.
  intros Hx. destruct k; cbn [renamed].
  - by rewrite split_ne_absent.
  - by apply split_ne_prefix.
Qed.

End serializer.

(** * The message level *)

Section message.

(** Without [next_segment], every item is a list and takes the next name
    of the segment table. *)
Lemma loop_segments rec segs items cs :
  Forall2 (λ item c, (∃ l, item = Node l) ∧ rec item = Some c) items cs →
  ∀ names message ptr,
    drop ptr segs = names → length names = length items →
    gen_hl7_loop rec segs 0 false items message ptr =
    gen_hl7_return 0
      (message ++ concat (zip_with (λ name c,
                                      (Py.split_ne "_" name).1 ++ "|" :: c)
                                   names cs)).
Proof.
  induction 1 as [|item c items cs [[l ->] Hc] Hrest IH];
    intros names message ptr Hdrop Hlen.
  - destruct names; [|done]. cbn [gen_hl7_loop zip_with concat].
    by rewrite app_nil_r.
  - destruct names as [|name names]; [done|].
    assert (segs !! ptr = Some name) as Hname.
    { rewrite <- (Nat.add_0_r ptr), <- lookup_drop, Hdrop. done. }
    cbn [gen_hl7_loop]. rewrite Hname, Hc. cbn [mbind option_bind].
    cbn [zip_with concat].
    destruct Hrest as [|item' c' items' cs' Hc' Hrest'].
    + destruct names; [|done]. cbn [gen_hl7_loop zip_with concat].
      by rewrite app_nil_r.
    + assert (length (drop ptr segs) = length (name :: names)) as Hl
        by by rewrite Hdrop.
      rewrite length_drop in Hl. cbn in Hl, Hlen.
      assert (next_pointer segs ptr = ptr + 1) as ->.
      { unfold next_pointer. by rewrite (proj2 (Z.ltb_lt _ _)) by lia. }
      rewrite (IH names _ (ptr + 1)).
      * cbn [app]. by rewrite <- !app_assoc.
      * rewrite Nat.add_1_r. erewrite drop_S in Hdrop by done.
        by simplify_eq.
      * cbn. lia.
Qed.

Lemma parse_fold lines : ∀ segs data,
  foldl parse_segment (segs, data) lines =
  (segs ++ ((λ line, (Py.split_ne "|" line).1) <$> lines),
   data ++ (segment_tree <$> lines)).
Proof.
  induction lines as [|line lines IH]; intros segs data; cbn [foldl].
  - by rewrite !app_nil_r.
  - unfold parse_segment at 2. unfold segment_tree.
    destruct (Py.split_ne "|" line) as [id fields] eqn:E.
    rewrite IH. cbn. by rewrite <- !app_assoc, E.
Qed.

Lemma strip_nil : Py.strip [] = [].
Proof. done. Qed.

(** The object after the parser has run on a fresh object. *)
Lemma hl7_to_list_fresh message :
  hl7_to_list (fresh message) (Some message) =
  mkHL7 (Py.strip message) (sort_segments (raw_segments message))
        (Some (segment_tree <$> Py.splitlines message)) None None None.
Proof.
  unfold hl7_to_list, fresh. cbn [hl7_message _segments elist dict json hl7].
  assert (match message with [] => Py.strip message | c :: m => c :: m end
          = message) as -> by by destruct message.
  by rewrite parse_fold.
Qed.

Lemma splitlines_aux_nil text : ∀ line,
  Py.splitlines_aux line text = [] → line = [] ∧ text = [].
Proof.
  induction text as [|c rest IH]; intros line; cbn.
  - by destruct line.
  - destruct (Py.is_linebreak c).
    + destruct rest as [|c' rest']; [done|].
      by destruct (bool_decide (c = CR) && bool_decide (c' = LF)).
    + intros [? _]%IH. by destruct line.
Qed.

Lemma join_cons sep p ps :
  ps ≠ [] → Py.join sep (p :: ps) = p ++ sep ++ Py.join sep ps.
Proof. by destruct ps. Qed.

(** Joining the lines of a text whose line boundaries are all new lines
    gives the text back, up to one final new line. *)
Lemma join_splitlines_aux text : ∀ line,
  forallb newline_only text = true →
  Py.join [LF] (Py.splitlines_aux line text) = line ++ text
  ∨ Py.join [LF] (Py.splitlines_aux line text) ++ [LF] = line ++ text.
Proof.
  induction text as [|c rest IH]; intros line Hnl.
  - left. cbn. destruct line; by rewrite ?app_nil_r.
  - cbn [forallb] in Hnl. apply andb_prop in Hnl as [Hc Hrest].
    cbn [Py.splitlines_aux]. destruct (Py.is_linebreak c) eqn:Hbreak.
    + unfold newline_only in Hc. rewrite Hbreak in Hc. cbn in Hc.
      apply bool_decide_eq_true in Hc as ->.
      assert (match rest with
              | [] => line :: Py.splitlines_aux [] rest
              | c' :: rest' =>
                  if bool_decide (LF = CR) && bool_decide (c' = LF)
                  then line :: Py.splitlines_aux [] rest'
                  else line :: Py.splitlines_aux [] rest
              end = line :: Py.splitlines_aux [] rest) as -> by by destruct rest.
      destruct (Py.splitlines_aux [] rest) as [|l ls] eqn:E.
      * apply splitlines_aux_nil in E as [_ ->]. by right.
      * rewrite join_cons by done. rewrite <- E.
        destruct (IH [] Hrest) as [H|H]; [left|right].
        -- by rewrite H.
        -- by rewrite <- !app_assoc, H.
    + destruct (IH (line ++ [c]) Hrest) as [H|H]; [left|right];
        by rewrite H, <- app_assoc.
Qed.

Lemma rstrip_newline text : Py.rstrip (text ++ [LF]) = Py.rstrip text.
Proof. unfold Py.rstrip. by rewrite rev_unit. Qed.

Lemma rstrip_join_splitlines message :
  forallb newline_only message = true →
  Py.rstrip (Py.join [LF] (Py.splitlines message)) = Py.rstrip message.
Proof.
  intros H. destruct (join_splitlines_aux message [] H) as [E|E];
    cbn [app] in E; fold (Py.splitlines message) in E.
  - by rewrite E.
  - etrans; [symmetry; apply rstrip_newline|]. by rewrite E.
Qed.

End message.

(** * The flat dictionary *)

Section dictionary.

Lemma tree_ind (P : tree → Prop) :
  (∀ text, P (Leaf text)) →
  (∀ items, Forall P items → P (Node items)) →
  ∀ t, P t.
Proof.
  intros Hleaf Hnode. fix IH 1. intros [text|items]; [apply Hleaf|].
  apply Hnode. induction items as [|item items IHitems]; constructor.
  - apply IH.
  - apply IHitems.
Qed.

Lemma set_fresh {V} (d : pydict V) k v :
  k ∉ d.*1 → Dict.set d k v = d ++ [(k, v)].
Proof.
  induction d as [|[k' v'] d IH]; intros Hk; cbn; [done|].
  rewrite decide_False by (intros ->; apply Hk; by left).
  rewrite IH; [done|]. intros H. apply Hk. by right.
Qed.

Lemma update_fresh {V} (other : pydict V) : ∀ d,
  NoDup ((d ++ other).*1) → Dict.update d other = d ++ other.
Proof.
  unfold Dict.update.
  induction other as [|[k v] other IH]; intros d Hnd; cbn [foldl].
  - by rewrite app_nil_r.
  - replace (d ++ (k, v) :: other) with ((d ++ [(k, v)]) ++ other) in *
      by by rewrite <- app_assoc.
    cbn [fst snd]. rewrite set_fresh.
    + by rewrite IH.
    + rewrite !fmap_app in Hnd. apply NoDup_app in Hnd as (Hnd & _).
      apply NoDup_app in Hnd as (_ & Hd & _). intros Hk.
      apply (Hd k Hk). by left.
Qed.

Lemma new_path_nonempty segs path index :
  path ≠ [] →
  new_path segs path index = Some (path ++ "." :: Py.str_of_nat (index + 1)).
Proof. by destruct path. Qed.

Lemma app_nonempty (a b : str) : a ≠ [] → a ++ b ≠ [].
Proof. by destruct a. Qed.

Section below_a_path.

Context (segs : list str).

(** With keys that do not clash, the dictionary of a value is the list of
    its entries. *)
Lemma gen_dict_entries t : ∀ path,
  path ≠ [] → NoDup ((entries t path).*1) →
  _gen_dict segs t path = Some (entries t path).
Proof.
  induction t as [text|items IH] using tree_ind; intros path Hpath Hnd;
    [done|].
  cbn [_gen_dict entries] in *.
  enough (∀ index d,
    NoDup ((d ++ entries_loop entries path items index).*1) →
    gen_dict_loop (_gen_dict segs) segs path items index d =
    Some (d ++ entries_loop entries path items index)) as H
    by (apply (H 0 []); done).
  clear Hnd. induction IH as [|item items Hitem _ IHitems];
    intros index d Hnd; cbn [gen_dict_loop entries_loop] in *.
  - by rewrite app_nil_r.
  - rewrite new_path_nonempty by done. cbn [mbind option_bind].
    rewrite app_assoc in Hnd.
    rewrite Hitem; [|by apply app_nonempty|].
    + cbn [mbind option_bind]. rewrite update_fresh.
      * rewrite IHitems by done. by rewrite app_assoc.
      * rewrite fmap_app in Hnd. by apply NoDup_app in Hnd as (? & _).
    + rewrite !fmap_app in Hnd.
      apply NoDup_app in Hnd as (Hnd & _).
      by apply NoDup_app in Hnd as (_ & _ & ?).
Qed.

Lemma gen_dict_some t : ∀ path,
  path ≠ [] → is_Some (_gen_dict segs t path).
Proof.
  induction t as [text|items IH] using tree_ind; intros path Hpath;
    [done|].
  cbn [_gen_dict]. generalize 0 at 1. generalize (@nil (str * str)).
  induction IH as [|item items Hitem _ IHitems]; intros d index;
    cbn [gen_dict_loop]; [done|].
  rewrite new_path_nonempty by done. cbn [mbind option_bind].
  destruct (Hitem (path ++ "." :: Py.str_of_nat (index + 1))) as [sub ->];
    [by apply app_nonempty|].
  apply IHitems.
Qed.

End below_a_path.

(** Two paths that agree start with the same dot-free head. *)
Lemma head_inj (a b t t' : str) :
  "." ∉ a → "." ∉ b → dotted t → dotted t' →
  a ++ t = b ++ t' → a = b ∧ t = t'.
Proof.
  revert b. induction a as [|c a IH]; intros [|d b] Ha Hb Ht Ht' H;
    cbn in H.
  - done.
  - exfalso. destruct Ht as [->|[? ->]]; [done|]. simplify_eq.
    apply Hb. by left.
  - exfalso. destruct Ht' as [->|[? ->]]; [done|]. simplify_eq.
    apply Ha. by left.
  - simplify_eq. destruct (IH b) as [-> ->]; try done.
    + intros ?. apply Ha. by right.
    + intros ?. apply Hb. by right.
Qed.

(** Every key of a value extends the path of the value. *)
Lemma entries_keys t : ∀ path k,
  k ∈ (entries t path).*1 → ∃ tail, k = path ++ tail ∧ dotted tail.
Proof.
  induction t as [text|items IH] using tree_ind; intros path k Hk.
  - apply list_elem_of_singleton in Hk as ->. exists []. split.
    + by rewrite app_nil_r.
    + by left.
  - cbn [entries] in Hk. revert Hk. generalize 0.
    induction IH as [|item items Hitem _ IHitems]; intros index Hk;
      cbn [entries_loop] in Hk.
    + by apply elem_of_nil in Hk.
    + rewrite fmap_app in Hk. apply elem_of_app in Hk as [Hk|Hk].
      * apply Hitem in Hk as (tail & -> & Htail).
        exists ("." :: Py.str_of_nat (index + 1) ++ tail). split.
        -- by rewrite <- app_assoc.
        -- right. by eexists.
      * by apply (IHitems (index + 1)).
Qed.

(** The keys of the items of a list carry their index. *)
Lemma entries_loop_keys path items : ∀ index k,
  k ∈ (entries_loop entries path items index).*1 →
  ∃ j tail, index ≤ j
            ∧ k = path ++ "." :: Py.str_of_nat (j + 1) ++ tail ∧ dotted tail.
Proof.
  induction items as [|item items IH]; intros index k Hk;
    cbn [entries_loop] in Hk.
  - by apply elem_of_nil in Hk.
  - rewrite fmap_app in Hk. apply elem_of_app in Hk as [Hk|Hk].
    + apply entries_keys in Hk as (tail & -> & Htail).
      exists index, tail. split; [done|]. split; [|done].
      by rewrite <- app_assoc.
    + apply IH in Hk as (j & tail & Hj & -> & Htail).
      exists j, tail. split; [lia|done].
Qed.

Lemma entries_NoDup t : ∀ path, NoDup ((entries t path).*1).
Proof.
  induction t as [text|items IH] using tree_ind; intros path.
  - apply NoDup_singleton.
  - cbn [entries]. generalize 0.
    induction IH as [|item items Hitem _ IHitems]; intros index;
      cbn [entries_loop].
    + constructor.
    + rewrite fmap_app. apply NoDup_app. split; [apply Hitem|].
      split; [|apply IHitems].
      intros k Hk Hk'.
      apply entries_keys in Hk as (tail & -> & Htail).
      apply entries_loop_keys in Hk' as (j & tail' & Hj & Hk' & Htail').
      rewrite <- app_assoc in Hk'. apply app_inv_head in Hk'.
      cbn in Hk'. simplify_eq.
      apply head_inj in Hk' as [Hk' _];
        [|apply str_of_nat_no_dot..|done|done].
      apply str_of_nat_inj in Hk'. lia.
Qed.

Lemma flat_keys names data k :
  k ∈ (flat names data).*1 →
  ∃ name tail, name ∈ names ∧ k = name ++ tail ∧ dotted tail.
Proof.
  unfold flat. revert data.
  induction names as [|name names IH]; intros [|item data] Hk;
    cbn in Hk; try by apply elem_of_nil in Hk.
  rewrite fmap_app in Hk. apply elem_of_app in Hk as [Hk|Hk].
  - apply entries_keys in Hk as (tail & -> & Htail).
    exists name, tail. split; [by left|done].
  - apply IH in Hk as (name' & tail & Hin & -> & Htail).
    exists name', tail. split; [by right|done].
Qed.

(** The paths of a message do not clash when the names of its segments
    are distinct and free of dots. *)
Lemma flat_NoDup names data :
  NoDup names → Forall (λ name, "." ∉ name) names →
  NoDup ((flat names data).*1).
Proof.
  intros Hnd Hdot. revert data.
  induction Hnd as [|name names Hname Hnd IH]; intros [|item data];
    try constructor.
  apply Forall_cons in Hdot as [Hdot Hdots].
  unfold flat. cbn [zip_with concat]. rewrite fmap_app.
  apply NoDup_app. split; [apply entries_NoDup|].
  split; [|by apply IH].
  intros k Hk Hk'.
  apply entries_keys in Hk as (tail & -> & Htail).
  apply flat_keys in Hk' as (name' & tail' & Hin & Hk' & Htail').
  apply head_inj in Hk' as [-> _]; try done.
  by eapply Forall_forall in Hdots.
Qed.

Lemma entries_length t : ∀ path, length (entries t path) = leaves t.
Proof.
  induction t as [text|items IH] using tree_ind; intros path; [done|].
  cbn [entries leaves]. generalize 0.
  induction IH as [|item items Hitem _ IHitems]; intros index; [done|].
  cbn [entries_loop]. rewrite length_app, Hitem, IHitems. done.
Qed.

Lemma flat_length names data :
  length names = length data → length (flat names data) = leaves (Node data).
Proof.
  unfold flat. cbn [leaves]. revert data.
  induction names as [|name names IH]; intros [|item data] Hlen;
    try done.
  cbn. rewrite length_app, entries_length, IH; [done|]. cbn in Hlen. lia.
Qed.

End dictionary.

(** * The constructor *)

Section constructor.

Lemma names_renamed rest : ∀ pre,
  Forall2 (λ x name, ∃ k, name = renamed k x) rest (names pre rest).
Proof.
  induction rest as [|x rest IH]; intros pre; constructor; [|apply IH].
  by eexists.
Qed.

Lemma sort_segments_renamed ids :
  Forall2 (λ x name, ∃ k, name = renamed k x) ids (sort_segments ids).
Proof. rewrite sort_segments_names. apply names_renamed. Qed.

Lemma renamed_nonempty k x : x ≠ [] → renamed k x ≠ [].
Proof. destruct k; [done|]. by apply app_nonempty. Qed.

Lemma renamed_no_dot k x : "." ∉ x → "." ∉ renamed k x.
Proof.
  destruct k; [done|]. cbn [renamed]. intros Hx [H|H]%elem_of_app; [done|].
  apply elem_of_cons in H as [H|H]; [done|].
  by apply str_of_nat_no_dot in H.
Qed.

Lemma sort_segments_nonempty ids :
  Forall (λ x, x ≠ []) ids → Forall (λ x, x ≠ []) (sort_segments ids).
Proof.
  intros H. pose proof (sort_segments_renamed ids) as H2.
  induction H2 as [|x name ids names' [k ->] _ IH]; [done|].
  apply Forall_cons in H as [Hx H]. constructor; [|by apply IH].
  by apply renamed_nonempty.
Qed.

Lemma sort_segments_no_dot ids :
  Forall (λ x, "." ∉ x) ids → Forall (λ x, "." ∉ x) (sort_segments ids).
Proof.
  intros H. pose proof (sort_segments_renamed ids) as H2.
  induction H2 as [|x name ids names' [k ->] _ IH]; [done|].
  apply Forall_cons in H as [Hx H]. constructor; [|by apply IH].
  by apply renamed_no_dot.
Qed.

Section top_level.

Context (segs : list str).

Lemma drop_lookup_head (names : list str) index name :
  drop index segs = name :: names →
  segs !! index = Some name ∧ drop (index + 1) segs = names.
Proof.
  intros Hdrop.
  assert (segs !! index = Some name) as Hname.
  { by rewrite <- (Nat.add_0_r index), <- lookup_drop, Hdrop. }
  split; [done|]. rewrite Nat.add_1_r.
  erewrite drop_S in Hdrop by done. by simplify_eq.
Qed.

(** At the top level every item takes its path from the segment table. *)
Lemma gen_dict_top_some items : ∀ names index d,
  drop index segs = names → length names = length items →
  Forall (λ x, x ≠ []) names →
  is_Some (gen_dict_loop (_gen_dict segs) segs [] items index d).
Proof.
  induction items as [|item items IH]; intros names index d Hdrop Hlen Hne;
    cbn [gen_dict_loop]; [done|].
  destruct names as [|name names]; [done|].
  apply drop_lookup_head in Hdrop as [Hname Hdrop].
  apply Forall_cons in Hne as [Hn Hne].
  cbn [new_path]. rewrite Hname. cbn [mbind option_bind].
  destruct (gen_dict_some segs item name Hn) as [sub ->].
  cbn [mbind option_bind]. apply (IH names); [done| |done].
  cbn in Hlen. lia.
Qed.

Lemma gen_dict_top items : ∀ names index d,
  drop index segs = names → length names = length items →
  Forall (λ x, x ≠ []) names →
  NoDup ((d ++ flat names items).*1) →
  gen_dict_loop (_gen_dict segs) segs [] items index d =
  Some (d ++ flat names items).
Proof.
  induction items as [|item items IH]; intros names index d Hdrop Hlen Hne Hnd;
    cbn [gen_dict_loop].
  - destruct names; [|done]. by rewrite app_nil_r.
  - destruct names as [|name names]; [done|].
    apply drop_lookup_head in Hdrop as [Hname Hdrop].
    apply Forall_cons in Hne as [Hn Hne].
    cbn [new_path]. rewrite Hname. cbn [mbind option_bind].
    unfold flat in *. cbn [zip_with concat] in *.
    rewrite app_assoc in Hnd.
    rewrite gen_dict_entries; [|done|apply entries_NoDup].
    cbn [mbind option_bind]. rewrite update_fresh.
    + rewrite (IH names); [by rewrite app_assoc|done| |done|done].
      cbn in Hlen. lia.
    + rewrite fmap_app in Hnd. by apply NoDup_app in Hnd as (? & _).
Qed.

Lemma json_fold items : ∀ names ptr d,
  drop ptr segs = names → length names = length items →
  foldl (json_step segs) (Some (ptr, d)) items =
  Some (ptr + length items, Dict.update d (json_entries names items)).
Proof.
  induction items as [|item items IH]; intros names ptr d Hdrop Hlen.
  - destruct names; [|done]. cbn. by rewrite Nat.add_0_r.
  - destruct names as [|name names]; [done|].
    apply drop_lookup_head in Hdrop as [Hname Hdrop].
    cbn [foldl]. unfold json_step at 2. cbn [mbind option_bind].
    rewrite Hname. cbn [mbind option_bind].
    rewrite (IH names); [|done|cbn in Hlen; lia].
    f_equal. f_equal. cbn. lia.
Qed.

End top_level.

Lemma raw_segments_length message :
  length (raw_segments message) = length (Py.splitlines message).
Proof. unfold raw_segments. by rewrite length_fmap. Qed.

(** The object that the constructor returns, when it returns one. *)
Lemma init_inv message self :
  __init__ message = Some self →
  let segs := sort_segments (raw_segments message) in
  let data := segment_tree <$> Py.splitlines message in
  ∃ d, _gen_dict segs (Node data) [] = Some d
       ∧ self = mkHL7 (Py.strip message) segs (Some data) (Some d)
                      (Some (Dict.update [] (json_entries segs data))) None.
Proof.
  unfold __init__. fold (fresh message). rewrite hl7_to_list_fresh.
  unfold list_to_dict. cbn [elist _segments mbind option_bind].
  destruct (_gen_dict _ _ _) as [d|] eqn:Hd; [|done].
  cbn [mbind option_bind hl7_message dict json hl7 elist _segments].
  unfold list_to_json. cbn [elist _segments mbind option_bind].
  rewrite (json_fold _ _ (sort_segments (raw_segments message)));
    [|done|by rewrite sort_segments_length, raw_segments_length, length_fmap].
  cbn. intros [= <-]. by exists d.
Qed.

(** The constructor returns an object when no identifier is empty. *)
Lemma init_some message :
  Forall (λ x, x ≠ []) (raw_segments message) → is_Some (__init__ message).
Proof.
  intros Hne. unfold __init__. fold (fresh message).
  rewrite hl7_to_list_fresh.
  unfold list_to_dict. cbn [elist _segments mbind option_bind].
  destruct (gen_dict_top_some (sort_segments (raw_segments message))
              (segment_tree <$> Py.splitlines message)
              (sort_segments (raw_segments message)) 0 []) as [d Hd];
    [done|by rewrite sort_segments_length, raw_segments_length, length_fmap
         |by apply sort_segments_nonempty|].
  cbn [_gen_dict]. rewrite Hd.
  cbn [mbind option_bind hl7_message dict json hl7 elist _segments].
  unfold list_to_json. cbn [elist _segments mbind option_bind].
  rewrite (json_fold _ _ (sort_segments (raw_segments message)));
    [|done|by rewrite sort_segments_length, raw_segments_length, length_fmap].
  done.
Qed.

End constructor.

(** * The disambiguation policy *)

(** A decidable proposition about concrete data, settled by evaluation. *)
Ltac by_evaluation := apply (bool_decide_unpack _); vm_compute; exact I.

Section policy.

Lemma names_imap rest : ∀ pre,
  names pre rest =
  imap (λ i x, renamed (occurrences x (pre ++ take i rest)) x) rest.
Proof.
  induction rest as [|x rest IH]; intros pre; [done|].
  rewrite imap_cons. cbn [names take]. rewrite app_nil_r. f_equal.
  rewrite IH. apply imap_ext. intros i y _. cbn.
  by rewrite <- app_assoc.
Qed.

(** C8: for every sequence of raw segment identifiers, the disambiguator
    keeps an identifier that has not occurred before and renames the one
    that has occurred [k >= 1] times before to [<id>_k]; the sequence
    MSH, PID, PID, OBX becomes MSH, PID, PID_1, OBX, and the empty
    sequence gives the empty table. *)
Theorem sort_segments_policy :
  (∀ self, _segments (_sort_segments self) = sort_segments (_segments self))
  ∧ (∀ ids, sort_segments ids =
            imap (λ i id, renamed (occurrences id (take i ids)) id) ids)
  ∧ (∀ id, renamed 0 id = id)
  ∧ (∀ k id, renamed (S k) id = id ++ lit "_" ++ Py.str_of_nat (S k))
  ∧ sort_segments [lit "MSH"; lit "PID"; lit "PID"; lit "OBX"] =
    [lit "MSH"; lit "PID"; lit "PID_1"; lit "OBX"]
  ∧ sort_segments [] = [].
Proof.
  split; [done|]. split; [|split; [done|split; [done|split]]].
  - intros ids. rewrite sort_segments_names. apply names_imap.
  - by vm_compute.
  - done.
Qed.

(** C9, as the code has it: when no raw segment identifier contains the
    character ["_"], the identifiers of the segment table are pairwise
    distinct. *)
Theorem sort_segments_distinct ids :
  Forall (λ id, "_" ∉ id) ids → NoDup (sort_segments ids).
Proof. apply sort_segments_NoDup. Qed.

Lemma sort_segments_distinct_witness :
  Forall (λ id, "_" ∉ id) [lit "MSH"; lit "PID"; lit "PID"; lit "OBX"]
  ∧ NoDup (sort_segments [lit "MSH"; lit "PID"; lit "PID"; lit "OBX"]).
Proof.
  assert (Forall (λ id, "_" ∉ id)
            [lit "MSH"; lit "PID"; lit "PID"; lit "OBX"]) as H.
  { by_evaluation. }
  split; [exact H|]. exact (sort_segments_distinct _ H).
Defined.

(** C9 fails as stated: after PID and PID, the raw identifier PID_1 meets
    the name given to the second PID. *)
Lemma sort_segments_distinct_counterexample :
  ¬ NoDup (sort_segments [lit "PID"; lit "PID"; lit "PID_1"]).
Proof.
  intros H. apply NoDup_cons in H as [_ H]. apply NoDup_cons in H as [H _].
  apply H. by vm_compute; left.
Qed.

End policy.

(** * The round trip through the embedded list *)

Section round_trip.

Lemma line_ok_inv line :
  line_ok line = true →
  "|" ∈ line ∧ (Py.split_ne "|" line).1 ≠ []
  ∧ ("_" ∉ (Py.split_ne "|" line).1).
Proof.
  unfold line_ok. intros [[H1 H2]%andb_prop H3]%andb_prop.
  apply bool_decide_eq_true in H1, H2, H3. done.
Qed.

(** The text that the loop of [_gen_hl7] writes for the lines of a
    message: every line, followed by a new line. *)
Lemma segment_texts lines :
  forallb line_ok lines = true →
  ∀ segs,
    Forall2 (λ line name, ∃ k, name = renamed k (Py.split_ne "|" line).1)
            lines segs →
    concat (zip_with (λ name c, (Py.split_ne "_" name).1 ++ "|" :: c) segs
              ((λ line, Py.join ["|"] (Py.split_ne "|" line).2 ++ [LF])
                 <$> lines))
    = terminated [LF] lines.
Proof.
  intros Hok segs Hnames.
  induction Hnames as [|line name lines segs [k ->] _ IH]; [done|].
  cbn [forallb] in Hok. apply andb_prop in Hok as [Hline Hok].
  apply line_ok_inv in Hline as (Hbar & _ & Hfree).
  cbn [fmap list_fmap zip_with concat]. unfold terminated in *.
  cbn [fmap list_fmap concat]. rewrite IH by done. f_equal.
  rewrite renamed_raw by done.
  pose proof (split_ne_join "|" line) as Hjoin.
  rewrite join_cons in Hjoin by by apply split_ne_present.
  rewrite <- Hjoin at 3. by rewrite <- !app_assoc.
Qed.

Lemma delimited_inv message :
  delimited message = true →
  forallb newline_only message = true
  ∧ forallb line_ok (Py.splitlines message) = true.
Proof. unfold delimited. by intros ?%andb_prop. Qed.

Lemma delimited_nonempty message :
  delimited message = true → Forall (λ x, x ≠ []) (raw_segments message).
Proof.
  intros [_ Hok]%delimited_inv. unfold raw_segments.
  induction (Py.splitlines message) as [|line lines IH]; [constructor|].
  cbn [forallb] in Hok. apply andb_prop in Hok as [Hline Hok].
  apply line_ok_inv in Hline as (_ & Hne & _).
  constructor; [done|by apply IH].
Qed.

(** The text rebuilt from the embedded list of such a message: its
    lines, joined by new lines. *)
Lemma gen_hl7_message message :
  delimited message = true →
  _gen_hl7 (sort_segments (raw_segments message))
           (Node (segment_tree <$> Py.splitlines message)) 0 false
  = Some (Py.join [LF] (Py.splitlines message)).
Proof.
  intros [_ Hok]%delimited_inv. rewrite gen_hl7_Node.
  set (segs := sort_segments (raw_segments message)).
  assert (Forall2 (λ item c,
            (∃ l, item = Node l) ∧ _gen_hl7 segs item (0 + 1) true = Some c)
            (segment_tree <$> Py.splitlines message)
            ((λ line, Py.join ["|"] (Py.split_ne "|" line).2 ++ [LF])
               <$> Py.splitlines message)) as Hitems.
  { apply Forall2_fmap. apply Forall_Forall2_diag, Forall_forall.
    intros line _. split; [by eexists|]. apply gen_segment. }
  rewrite (loop_segments _ _ _ _ Hitems segs); [|done|].
  - rewrite segment_texts; [|done|].
    + unfold gen_hl7_return. cbn.
      by rewrite removelast_terminated, app_nil_r.
    + pose proof (sort_segments_renamed (raw_segments message)) as H.
      unfold raw_segments in H at 1. by apply Forall2_fmap_l in H.
  - unfold segs.
    by rewrite sort_segments_length, raw_segments_length, length_fmap.
Qed.

(** C1, as the code has it: for every message whose line boundaries are
    new lines and whose lines have a non-empty identifier without ["_"]
    followed by the field delimiter, the constructor returns an object,
    [list_to_hl7] rebuilds a text from the embedded list of the parser,
    and that text is the message up to trailing whitespace. *)
Theorem list_to_hl7_round_trip message :
  delimited message = true →
  ∃ self self' text,
    __init__ message = Some self
    ∧ list_to_hl7 self = Some self'
    ∧ hl7 self' = Some text
    ∧ Py.rstrip text = Py.rstrip message.
Proof.
  intros Hwf.
  destruct (init_some message (delimited_nonempty _ Hwf)) as [self Hself].
  destruct (init_inv _ _ Hself) as (d & _ & ->).
  eexists _, _, _. split; [done|].
  unfold list_to_hl7. cbn [elist _segments mbind option_bind].
  rewrite gen_hl7_message by done. cbn [mbind option_bind].
  split; [done|]. cbn [hl7]. split; [done|].
  apply rstrip_join_splitlines. by apply delimited_inv in Hwf as [? _].
Qed.

Lemma list_to_hl7_round_trip_witness :
  delimited scenario = true
  ∧ ∃ self self' text,
      __init__ scenario = Some self
      ∧ list_to_hl7 self = Some self'
      ∧ hl7 self' = Some text
      ∧ Py.rstrip text = Py.rstrip scenario.
Proof.
  assert (delimited scenario = true) as H by (vm_compute; reflexivity).
  split; [exact H|]. exact (list_to_hl7_round_trip scenario H).
Defined.

(** C1 fails as stated, for messages that have no empty identifier: a
    line without the field delimiter is rebuilt with one (the lines MSH|a
    and ZZZ give MSH|a and ZZZ|); a carriage return between two segments
    is rebuilt as a new line; an identifier is rebuilt up to its first
    ["_"] (Z_A|a gives Z|a). *)
Lemma list_to_hl7_round_trip_counterexample :
  (¬ ∃ self self' text,
       __init__ no_delimiter = Some self
       ∧ list_to_hl7 self = Some self'
       ∧ hl7 self' = Some text
       ∧ Py.rstrip text = Py.rstrip no_delimiter)
  ∧ (¬ ∃ self self' text,
         __init__ carriage_return = Some self
         ∧ list_to_hl7 self = Some self'
         ∧ hl7 self' = Some text
         ∧ Py.rstrip text = Py.rstrip carriage_return)
  ∧ (¬ ∃ self self' text,
         __init__ underscore_identifier = Some self
         ∧ list_to_hl7 self = Some self'
         ∧ hl7 self' = Some text
         ∧ Py.rstrip text = Py.rstrip underscore_identifier).
Proof.
  repeat split; intros (self & self' & text & Hself & Hself' & Htext & H);
    vm_compute in Hself; injection Hself as <-;
    vm_compute in Hself'; injection Hself' as <-;
    vm_compute in Htext; injection Htext as <-;
    by vm_compute in H.
Qed.

End round_trip.

(** * The end-to-end scenario *)

Section end_to_end.

(** C2, as the code has it: the scenario message gives the two segments
    MSH and EVN; the field of the encoding characters gives two entries,
    so that the flat dictionary is MSH.1 -> "|", MSH.2 -> "^~\&",
    MSH.3 -> "App", MSH.4 -> "Fac", EVN.1 -> "A01",
    EVN.2 -> "20110613083617"; and [list_to_hl7] rebuilds the message
    without its final new line. *)
Theorem scenario_forms :
  ∃ self self',
    __init__ scenario = Some self
    ∧ _segments self = [lit "MSH"; lit "EVN"]
    ∧ dict self = Some [(lit "MSH.1", lit "|"); (lit "MSH.2", lit "^~\&");
                        (lit "MSH.3", lit "App"); (lit "MSH.4", lit "Fac");
                        (lit "EVN.1", lit "A01");
                        (lit "EVN.2", lit "20110613083617")]
    ∧ list_to_hl7 self = Some self'
    ∧ hl7 self' = Some (lit "MSH|^~\&|App|Fac" ++ [LF]
                        ++ lit "EVN|A01|20110613083617")
    ∧ hl7 self' = Some (hl7_message self).
Proof.
  eexists _, _. split; [vm_compute; reflexivity|].
  split; [vm_compute; reflexivity|]. split; [vm_compute; reflexivity|].
  split; [vm_compute; reflexivity|]. split; vm_compute; reflexivity.
Qed.

(** C2 fails as stated: the entry MSH.1 holds the field delimiter, not
    the encoding characters. *)
Lemma scenario_forms_counterexample :
  ¬ ∃ self d self',
      __init__ scenario = Some self
      ∧ _segments self = [lit "MSH"; lit "EVN"]
      ∧ dict self = Some d
      ∧ Dict.get d (lit "MSH.1") = Some (lit "^~\&")
      ∧ Dict.get d (lit "MSH.2") = Some (lit "App")
      ∧ Dict.get d (lit "MSH.3") = Some (lit "Fac")
      ∧ Dict.get d (lit "EVN.1") = Some (lit "A01")
      ∧ Dict.get d (lit "EVN.2") = Some (lit "20110613083617")
      ∧ list_to_hl7 self = Some self'
      ∧ hl7 self' = Some scenario.
Proof.
  intros (self & d & self' & Hself & _ & Hd & H1 & _).
  vm_compute in Hself. injection Hself as <-.
  cbn [dict] in Hd. injection Hd as <-.
  by vm_compute in H1.
Qed.

End end_to_end.

(** * The field of the encoding characters *)

Section encoding.

(** C3, as the code has it: a field equal to the encoding characters
    gives, in the list of its segment, the marker "|" followed by one
    unsplit string holding the literal, between the items of the fields
    before and after it; and the text rebuilt for that segment is its
    fields, the literal among them, joined by the field delimiter. *)
Theorem encoding_characters_kept message self i line before after :
  __init__ message = Some self →
  Py.splitlines message !! i = Some line →
  (Py.split_ne "|" line).2 = before ++ encoding_characters :: after →
  ∃ data segment,
    elist self = Some data
    ∧ data !! i = Some segment
    ∧ segment = Node (concat (field_items <$> before)
                      ++ [Leaf (lit "|"); Leaf (lit "^~\&")]
                      ++ concat (field_items <$> after))
    ∧ _gen_hl7 (_segments self) segment 1 true =
      Some (Py.join (lit "|") (before ++ lit "^~\&" :: after) ++ [LF]).
Proof.
  intros Hself Hline Hfields.
  destruct (init_inv _ _ Hself) as (d & _ & ->).
  eexists _, (segment_tree line). split; [done|]. split.
  { by rewrite list_lookup_fmap, Hline. }
  split.
  - unfold segment_tree. rewrite parse_fields, Hfields. cbn [app].
    by rewrite fmap_app, concat_app.
  - cbn [_segments]. rewrite gen_segment. by rewrite Hfields.
Qed.

Lemma encoding_characters_kept_witness :
  __init__ header = Some header_object
  ∧ Py.splitlines header !! 0 = Some header
  ∧ (Py.split_ne "|" header).2 = [] ++ encoding_characters :: [lit "App"]
  ∧ ∃ data segment,
      elist header_object = Some data
      ∧ data !! 0 = Some segment
      ∧ segment = Node (concat (field_items <$> [])
                        ++ [Leaf (lit "|"); Leaf (lit "^~\&")]
                        ++ concat (field_items <$> [lit "App"]))
      ∧ _gen_hl7 (_segments header_object) segment 1 true =
        Some (Py.join (lit "|") ([] ++ lit "^~\&" :: [lit "App"]) ++ [LF]).
Proof.
  assert (__init__ header = Some header_object) as H1
    by (vm_compute; reflexivity).
  assert (Py.splitlines header !! 0 = Some header) as H2
    by (vm_compute; reflexivity).
  assert ((Py.split_ne "|" header).2
          = [] ++ encoding_characters :: [lit "App"]) as H3
    by (vm_compute; reflexivity).
  split; [exact H1|]. split; [exact H2|]. split; [exact H3|].
  exact (encoding_characters_kept _ _ _ _ _ _ H1 H2 H3).
Defined.

(** C3 fails as stated: the list of the segment MSH|^~\& is not the single
    string of the literal; the marker "|" stands before it. *)
Lemma encoding_characters_kept_counterexample :
  (self ← __init__ (lit "MSH|^~\&"); elist self)
  = Some [Node [Leaf (lit "|"); Leaf (lit "^~\&")]]
  ∧ (self ← __init__ (lit "MSH|^~\&"); elist self)
    ≠ Some [Node [Leaf (lit "^~\&")]].
Proof. split; [by vm_compute|]. by vm_compute. Qed.

End encoding.

(** * From the flat dictionary back to the embedded list *)

Section from_dictionary.

(** C4, at the message X|a~b|c~d: the parser gives two repeated fields of
    two repetitions each; [dict_to_list] rebuilds from the dictionary of
    that list one field, whose second repetition holds b, c and d, and
    not the list of the parser. *)
Theorem dict_to_list_two_repeats :
  (self ← __init__ two_repeats; elist self)
  = Some [Node [Node [Node [Leaf (lit "a")]; Node [Leaf (lit "b")]];
                Node [Node [Leaf (lit "c")]; Node [Leaf (lit "d")]]]]
  ∧ (self ← __init__ two_repeats; dict self)
    = Some [(lit "X.1.1.1", lit "a"); (lit "X.1.2.1", lit "b");
            (lit "X.2.1.1", lit "c"); (lit "X.2.2.1", lit "d")]
  ∧ (self ← __init__ two_repeats; self ← dict_to_list self; elist self)
    = Some [Node [Node [Node [Leaf (lit "a")];
                        Node [Leaf (lit "b"); Leaf (lit "c"); Leaf (lit "d")]]]]
  ∧ (self ← __init__ two_repeats; self ← dict_to_list self; elist self)
    ≠ (self ← __init__ two_repeats; elist self).
Proof. repeat split; vm_compute; (reflexivity || discriminate). Qed.

(** C5, at the message of the two lines X|a~b and Y|c: when the loop of
    [dict_to_list] reaches the entry Y.1, the repetition group of X is
    still open; it is appended to the list of Y, and the list of X stays
    empty.  With the lines X|a^b and Y|c the open subfields of X do go to
    the list of X. *)
Theorem dict_to_list_segment_change :
  (self ← __init__ repeat_then_segment; dict self)
  = Some [(lit "X.1.1.1", lit "a"); (lit "X.1.2.1", lit "b");
          (lit "Y.1", lit "c")]
  ∧ (self ← __init__ repeat_then_segment; d ← dict self;
     segments <$> dict_loop d)
    = Some [(lit "X", []);
            (lit "Y", [Node [Node [Leaf (lit "a")]; Node [Leaf (lit "b")]];
                       Leaf (lit "c")])]
  ∧ (self ← __init__ repeat_then_segment; elist self)
    = Some [Node [Node [Node [Leaf (lit "a")]; Node [Leaf (lit "b")]]];
            Node [Leaf (lit "c")]]
  ∧ (self ← __init__ subfields_then_segment; d ← dict self;
     segments <$> dict_loop d)
    = Some [(lit "X", [Node [Leaf (lit "a"); Leaf (lit "b")]]);
            (lit "Y", [Leaf (lit "c")])].
Proof. repeat split; vm_compute; reflexivity. Qed.

End from_dictionary.

(** * The JSON form *)

Section json_form.

Lemma remove_fillers_gen_json t : remove_fillers_item (_gen_json t) = t.
Proof.
  induction t as [text|items IH] using tree_ind; [done|].
  cbn [_gen_json remove_fillers_item]. f_equal.
  induction IH as [|item items Hitem _ IHitems]; [done|].
  cbn [fmap list_fmap]. by rewrite Hitem, IHitems.
Qed.

Lemma json_entries_keys names data :
  length names = length data → (json_entries names data).*1 = names.
Proof.
  unfold json_entries. revert data.
  induction names as [|name names IH]; intros [|item data] Hlen; try done.
  cbn. f_equal. apply IH. cbn in Hlen. lia.
Qed.

Lemma json_entries_values names data :
  length names = length data →
  (json_entries names data).*2 = (λ item, iter_items (_gen_json item)) <$> data.
Proof.
  unfold json_entries. revert data.
  induction names as [|name names IH]; intros [|item data] Hlen; try done.
  cbn. f_equal. apply IH. cbn in Hlen. lia.
Qed.

(** C6, as the code has it: when the identifiers of the segment table are
    pairwise distinct, [json_to_list] gives, from the JSON form that the
    constructor builds, a list equal to the embedded list of the
    parser. *)
Theorem json_round_trip message self :
  __init__ message = Some self →
  NoDup (_segments self) →
  ∃ data, elist self = Some data ∧ json_to_list self = Some (self, data).
Proof.
  intros Hself Hnd. destruct (init_inv _ _ Hself) as (d & _ & ->).
  cbn [_segments] in Hnd. eexists. split; [done|].
  unfold json_to_list. cbn [json mbind option_bind]. do 2 f_equal.
  assert (length (sort_segments (raw_segments message))
          = length (segment_tree <$> Py.splitlines message)) as Hlen
    by by rewrite sort_segments_length, raw_segments_length, length_fmap.
  rewrite update_fresh by (cbn [app]; by rewrite json_entries_keys).
  cbn [app]. unfold Dict.values, remove_fillers.
  rewrite json_entries_values by done. rewrite <- !list_fmap_compose.
  apply list_fmap_ext. intros _ line _. cbn.
  unfold segment_tree. f_equal. rewrite <- list_fmap_compose.
  etrans; [|apply list_fmap_id].
  apply list_fmap_ext. intros _ item _. apply remove_fillers_gen_json.
Qed.

Lemma json_round_trip_witness :
  __init__ header = Some header_object
  ∧ NoDup (_segments header_object)
  ∧ ∃ data, elist header_object = Some data
            ∧ json_to_list header_object = Some (header_object, data).
Proof.
  assert (__init__ header = Some header_object) as H1
    by (vm_compute; reflexivity).
  assert (NoDup (_segments header_object)) as H2 by by_evaluation.
  split; [exact H1|]. split; [exact H2|].
  exact (json_round_trip _ _ H1 H2).
Defined.

(** C6 fails as stated: in the message of the lines PID|a, PID|b and
    PID_1|c the second and third segments share the name PID_1; the JSON
    form keeps one list for both, and [json_to_list] gives two segments
    for the three of the embedded list. *)
Lemma json_round_trip_counterexample :
  ¬ ∃ self data,
      __init__ clashing = Some self
      ∧ elist self = Some data
      ∧ json_to_list self = Some (self, data).
Proof.
  intros (self & data & Hself & Hdata & Hjson).
  vm_compute in Hself. injection Hself as <-.
  vm_compute in Hdata. injection Hdata as <-.
  by vm_compute in Hjson.
Qed.

(** C10: [json_to_list] hands back the object as it was: the message, the
    embedded list, the dictionary and the JSON form are those of before
    the call, and [list_to_hl7] after it builds what it builds without the
    call, the text of the stored embedded list. *)
Theorem json_to_list_frame self self' result :
  json_to_list self = Some (self', result) →
  hl7_message self' = hl7_message self
  ∧ _segments self' = _segments self
  ∧ elist self' = elist self
  ∧ dict self' = dict self
  ∧ json self' = json self
  ∧ list_to_hl7 self' = list_to_hl7 self
  ∧ (∀ after, list_to_hl7 self' = Some after →
       ∃ data, elist self = Some data
               ∧ hl7 after = _gen_hl7 (_segments self) (Node data) 0 false).
Proof.
  intros H. assert (self' = self) as ->.
  { unfold json_to_list in H. destruct (json self); [|done].
    cbn in H. by injection H as <-. }
  repeat split. intros after. unfold list_to_hl7.
  destruct (elist self) as [data|]; [|done]. cbn [mbind option_bind].
  destruct (_gen_hl7 (_segments self) (Node data) 0 false) as [message|]
    eqn:E; [|done].
  cbn [mbind option_bind]. intros [= <-]. exists data. by rewrite E.
Qed.

Lemma json_to_list_frame_witness :
  json_to_list header_object
  = Some (header_object,
          [Node [Leaf (lit "|"); Leaf (lit "^~\&"); Leaf (lit "App")]])
  ∧ hl7_message header_object = hl7_message header_object
  ∧ _segments header_object = _segments header_object
  ∧ elist header_object = elist header_object
  ∧ dict header_object = dict header_object
  ∧ json header_object = json header_object
  ∧ list_to_hl7 header_object = list_to_hl7 header_object
  ∧ (∀ after, list_to_hl7 header_object = Some after →
       ∃ data, elist header_object = Some data
               ∧ hl7 after
                 = _gen_hl7 (_segments header_object) (Node data) 0 false).
Proof.
  assert (json_to_list header_object
          = Some (header_object,
                  [Node [Leaf (lit "|"); Leaf (lit "^~\&"); Leaf (lit "App")]]))
    as H by (vm_compute; reflexivity).
  split; [exact H|]. exact (json_to_list_frame _ _ _ H).
Defined.

End json_form.

(** * Leaves and entries *)

Section leaves_and_entries.

Lemma plain_parts ids :
  Forall plain ids →
  Forall (λ x, x ≠ []) ids ∧ Forall (λ x, "_" ∉ x) ids
  ∧ Forall (λ x, "." ∉ x) ids.
Proof.
  intros H. repeat split; eapply Forall_impl; try exact H;
    by intros x (? & ? & ?).
Qed.

(** C7, as the code has it: when every raw segment identifier is not
    empty and free of ["_"] and ["."], the constructor returns an object
    whose flat dictionary lists, in depth-first order, one entry per
    string of the embedded list, keyed by the path of that string; the
    dictionary has as many entries as the embedded list has strings. *)
Theorem dict_counts_leaves message :
  Forall plain (raw_segments message) →
  ∃ self data d,
    __init__ message = Some self
    ∧ elist self = Some data
    ∧ dict self = Some d
    ∧ d = flat (_segments self) data
    ∧ length d = leaves (Node data).
Proof.
  intros (Hne & Hus & Hdot)%plain_parts.
  destruct (init_some message Hne) as [self Hself].
  destruct (init_inv _ _ Hself) as (d & Hd & ->).
  assert (length (sort_segments (raw_segments message))
          = length (segment_tree <$> Py.splitlines message)) as Hlen
    by by rewrite sort_segments_length, raw_segments_length, length_fmap.
  cbn [_gen_dict] in Hd.
  rewrite (gen_dict_top _ _ (sort_segments (raw_segments message))) in Hd;
    [|done|done|by apply sort_segments_nonempty|].
  - injection Hd as <-. eexists _, _, _. split; [done|].
    cbn [elist dict _segments app]. repeat split.
    by apply flat_length.
  - cbn [app]. apply flat_NoDup.
    + by apply sort_segments_NoDup.
    + by apply sort_segments_no_dot.
Qed.

Lemma dict_counts_leaves_witness :
  Forall plain (raw_segments scenario)
  ∧ ∃ self data d,
      __init__ scenario = Some self
      ∧ elist self = Some data
      ∧ dict self = Some d
      ∧ d = flat (_segments self) data
      ∧ length d = leaves (Node data).
Proof.
  assert (Forall plain (raw_segments scenario)) as H.
  { unfold plain. by_evaluation. }
  split; [exact H|]. exact (dict_counts_leaves scenario H).
Defined.

(** C7 fails as stated: in the message of the lines PID|a, PID|b and
    PID_1|c the embedded list has three strings and the dictionary two
    entries, the paths of b and c being both PID_1.1. *)
Lemma dict_counts_leaves_counterexample :
  ¬ ∃ self data d,
      __init__ clashing = Some self
      ∧ elist self = Some data
      ∧ dict self = Some d
      ∧ length d = leaves (Node data).
Proof.
  intros (self & data & d & Hself & Hdata & Hd & Hlen).
  vm_compute in Hself. injection Hself as <-.
  vm_compute in Hdata. injection Hdata as <-.
  vm_compute in Hd. injection Hd as <-.
  by vm_compute in Hlen.
Qed.

End leaves_and_entries.

(** * Further properties: the segment table *)

Section table.

Lemma scenario_object_init : __init__ scenario = Some scenario_object.
Proof. by vm_compute. Qed.

Lemma split_ne_first_app sep a b :
  (Py.split_ne sep (a ++ sep :: b)).1 = (Py.split_ne sep a).1.
Proof.
  induction a as [|c a IH]; cbn.
  - destruct (Py.split_ne sep b). by rewrite decide_True.
  - destruct (Py.split_ne sep (a ++ sep :: b)) as [p ps],
             (Py.split_ne sep a) as [q qs].
    cbn in IH. subst q. by destruct (decide (c = sep)).
Qed.

Lemma renamed_first k x :
  (Py.split_ne "_" (renamed k x)).1 = (Py.split_ne "_" x).1.
Proof. destruct k; [done|]. cbn [renamed]. apply split_ne_first_app. Qed.

(** X2: the identifier that the serializer writes for a name of the
    segment table, its text up to the first ["_"], is the raw identifier
    up to its first ["_"]; an identifier free of ["_"] is written back
    whole. *)
Theorem serialized_identifiers :
  (∀ ids, (λ name, (Py.split_ne "_" name).1) <$> sort_segments ids
          = (λ id, (Py.split_ne "_" id).1) <$> ids)
  ∧ (∀ id : str, "_" ∉ id ↔ (Py.split_ne "_" id).1 = id).
Proof.
  split.
  - intros ids. pose proof (sort_segments_renamed ids) as H.
    induction H as [|x name ids names' [k ->] _ IH]; [done|].
    cbn [fmap list_fmap]. rewrite renamed_first. by f_equal.
  - intros id. split.
    + intros H. by rewrite split_ne_absent.
    + intros H. rewrite <- H. apply split_ne_free.
Qed.

Lemma occurrences_zero x l : occurrences x l = 0 ↔ x ∉ l.
Proof.
  unfold occurrences. rewrite length_zero_iff_nil. split.
  - intros H Hin. assert (x ∈ filter (λ y, y = x) l) as Hf
      by by apply list_elem_of_filter.
    rewrite H in Hf. by apply elem_of_nil in Hf.
  - intros H. apply elem_of_nil_inv. intros y [-> Hy]%list_elem_of_filter.
    done.
Qed.

Lemma renamed_longer k x : renamed (S k) x ≠ x.
Proof.
  cbn [renamed]. intros H. apply (f_equal length) in H.
  rewrite length_app in H. cbn in H. lia.
Qed.

(** X3: the disambiguator leaves a table unchanged exactly when its
    identifiers are pairwise distinct. *)
Theorem sort_segments_fixpoint ids : sort_segments ids = ids ↔ NoDup ids.
Proof.
  split.
  - intros Heq. apply NoDup_alt. intros i j x Hi Hj.
    destruct (Nat.lt_trichotomy i j) as [Hlt|[->|Hlt]]; [|done|]; exfalso.
    + pose proof (occurrences_take_lt ids i j x Hlt Hi) as Hocc.
      pose proof (sort_segments_lookup ids j x Hj) as Hs.
      rewrite Heq, Hj in Hs.
      destruct (occurrences x (take j ids)); [lia|].
      injection Hs as Hs. by eapply renamed_longer.
    + pose proof (occurrences_take_lt ids j i x Hlt Hj) as Hocc.
      pose proof (sort_segments_lookup ids i x Hi) as Hs.
      rewrite Heq, Hi in Hs.
      destruct (occurrences x (take i ids)); [lia|].
      injection Hs as Hs. by eapply renamed_longer.
  - intros Hnd. apply list_eq. intros i.
    destruct (ids !! i) as [x|] eqn:Hi.
    + rewrite (sort_segments_lookup ids i x Hi).
      assert (occurrences x (take i ids) = 0) as ->; [|done].
      apply occurrences_zero. intros [j Hj]%list_elem_of_lookup.
      apply lookup_take_Some in Hj as [Hj Hlt].
      pose proof (proj1 (NoDup_alt ids) Hnd i j x Hi Hj). lia.
    + apply lookup_ge_None. rewrite sort_segments_length.
      by apply lookup_ge_None.
Qed.

End table.

(** * Further properties: the parser, the constructor, the serializer *)

Section parser_and_serializer.

Lemma gen_hl7_loop_too_deep rec segs depth next items :
  end_separator depth = None →
  ∀ message ptr, gen_hl7_loop rec segs depth next items message ptr = None.
Proof.
  intros Hend. induction items as [|[text|sub] items IH]; intros message ptr;
    cbn [gen_hl7_loop].
  - unfold gen_hl7_return. by rewrite Hend.
  - destruct (gen_hl7_text depth message text); [|done]. apply IH.
  - destruct next.
    + destruct (rec (Node sub)); [|done]. apply IH.
    + destruct (segs !! ptr); [|done]. cbn [mbind option_bind].
      destruct (rec (Node sub)); [|done]. apply IH.
Qed.

(** X4: [_gen_hl7] raises at every depth from 4 on, whatever the value:
    the tuple of separators has no entry for the end of a list there. *)
Theorem gen_hl7_depth_limit segs value depth next_segment :
  4 ≤ depth → _gen_hl7 segs value depth next_segment = None.
Proof.
  intros Hdepth.
  assert (end_separator depth = None) as Hend.
  { unfold end_separator. rewrite (proj2 (Nat.ltb_ge _ _)) by lia.
    apply lookup_ge_None. cbn. lia. }
  destruct value as [text|items]; cbn [_gen_hl7].
  - destruct (foldl _ _ _); [|done]. cbn [mbind option_bind].
    unfold gen_hl7_return. by rewrite Hend.
  - by apply gen_hl7_loop_too_deep.
Qed.

Lemma gen_hl7_depth_limit_witness :
  4 ≤ 4 ∧ _gen_hl7 [lit "MSH"] (Node [Leaf (lit "a")]) 4 true = None.
Proof.
  assert (4 ≤ 4) as H by lia.
  split; [exact H|]. exact (gen_hl7_depth_limit _ _ _ _ H).
Defined.

Lemma split_length_pos sep text : 1 ≤ length (Py.split sep text).
Proof. unfold Py.split. destruct (Py.split_ne sep text). cbn. lia. Qed.

Lemma forallb_is_leaf (texts : list str) : forallb is_leaf (Leaf <$> texts) = true.
Proof. by induction texts. Qed.

Lemma field_items_shape field : forallb field_shape (field_items field) = true.
Proof.
  unfold field_items, parse_field.
  destruct (decide (field = encoding_characters)); [done|].
  destruct (decide ("~" ∈ field)) as [Hrep|Hrep].
  - cbn [app forallb field_shape]. rewrite andb_true_r, length_fmap.
    apply andb_true_intro. split.
    + apply Nat.leb_le. pose proof (split_length_pos "~" field).
      pose proof (split_length_1 "~" field). 
      destruct (decide (length (Py.split "~" field) = 1)) as [H1|H1]; [|lia].
      by apply H0 in H1.
    + apply orb_true_intro. right.
      induction (Py.split "~" field) as [|r rs IH]; [done|].
      cbn [fmap list_fmap forallb repetition_shape]. rewrite IH, andb_true_r.
      rewrite length_fmap, forallb_is_leaf, andb_true_r.
      apply Nat.leb_le, split_length_pos.
  - destruct (decide (length (Py.split "^" field) = 1)) as [Hone|Hone];
      cbn [app].
    + clear Hone. induction (Py.split "^" field) as [|c cs IH]; [done|].
      by cbn.
    + cbn [forallb field_shape]. rewrite andb_true_r, length_fmap.
      rewrite forallb_is_leaf, orb_true_l, andb_true_r.
      apply Nat.leb_le. pose proof (split_length_pos "^" field). lia.
Qed.

Lemma forallb_concat {A} (f : A → bool) (ls : list (list A)) :
  Forall (λ l, forallb f l = true) ls → forallb f (concat ls) = true.
Proof.
  induction 1 as [|l ls Hl _ IH]; [done|].
  cbn. rewrite forallb_app, Hl, IH. done.
Qed.

Lemma segment_tree_shape line : segment_shape (segment_tree line) = true.
Proof.
  unfold segment_tree. rewrite parse_fields. cbn [app segment_shape].
  apply forallb_concat, Forall_fmap, Forall_forall. intros f _.
  apply field_items_shape.
Qed.

(** X5: in the embedded list that the constructor builds, every segment
    is a list of fields, and every field is a string, a list of at least
    two strings, or a list of at least two repetitions, each a list of at
    least one string: nothing is nested deeper. *)
Theorem parser_shape message self data :
  __init__ message = Some self → elist self = Some data →
  forallb segment_shape data = true.
Proof.
  intros Hself Hdata. destruct (init_inv _ _ Hself) as (d & _ & ->).
  cbn [elist] in Hdata. injection Hdata as <-. clear Hself.
  induction (Py.splitlines message) as [|line lines IH]; [done|].
  cbn [fmap list_fmap forallb]. by rewrite segment_tree_shape, IH.
Qed.

Lemma parser_shape_witness :
  __init__ scenario = Some scenario_object
  ∧ elist scenario_object
    = Some [Node [Leaf (lit "|"); Leaf (lit "^~\&"); Leaf (lit "App");
                  Leaf (lit "Fac")];
            Node [Leaf (lit "A01"); Leaf (lit "20110613083617")]]
  ∧ forallb segment_shape
      [Node [Leaf (lit "|"); Leaf (lit "^~\&"); Leaf (lit "App");
             Leaf (lit "Fac")];
       Node [Leaf (lit "A01"); Leaf (lit "20110613083617")]] = true.
Proof.
  assert (__init__ scenario = Some scenario_object) as H1
    by (vm_compute; reflexivity).
  assert (elist scenario_object
          = Some [Node [Leaf (lit "|"); Leaf (lit "^~\&"); Leaf (lit "App");
                        Leaf (lit "Fac")];
                  Node [Leaf (lit "A01"); Leaf (lit "20110613083617")]]) as H2
    by reflexivity.
  split; [exact H1|]. split; [exact H2|].
  exact (parser_shape _ _ _ H1 H2).
Defined.

(** X6: the object that the constructor returns keeps the message
    stripped of surrounding whitespace, one name of the disambiguated
    table and one list per line of the message, in the order of the
    lines, and no rebuilt text. *)
Theorem constructor_forms message self :
  __init__ message = Some self →
  hl7_message self = Py.strip message
  ∧ _segments self = sort_segments (raw_segments message)
  ∧ length (_segments self) = length (Py.splitlines message)
  ∧ (∃ data, elist self = Some data
             ∧ length data = length (Py.splitlines message)
             ∧ ∀ i line, Py.splitlines message !! i = Some line →
                 data !! i = Some (Node (concat (field_items <$>
                                         (Py.split_ne "|" line).2))))
  ∧ hl7 self = None.
Proof.
  intros Hself. destruct (init_inv _ _ Hself) as (d & _ & ->).
  cbn [hl7_message _segments elist hl7].
  split; [done|]. split; [done|].
  split; [by rewrite sort_segments_length, raw_segments_length|].
  split; [|done]. eexists. split; [done|].
  split; [by rewrite length_fmap|].
  intros i line Hline. rewrite list_lookup_fmap, Hline. cbn.
  unfold segment_tree. by rewrite parse_fields.
Qed.

Lemma constructor_forms_witness :
  __init__ scenario = Some scenario_object
  ∧ hl7_message scenario_object = Py.strip scenario
  ∧ _segments scenario_object = sort_segments (raw_segments scenario)
  ∧ length (_segments scenario_object) = length (Py.splitlines scenario)
  ∧ (∃ data, elist scenario_object = Some data
             ∧ length data = length (Py.splitlines scenario)
             ∧ ∀ i line, Py.splitlines scenario !! i = Some line →
                 data !! i = Some (Node (concat (field_items <$>
                                         (Py.split_ne "|" line).2))))
  ∧ hl7 scenario_object = None.
Proof.
  assert (__init__ scenario = Some scenario_object) as H
    by (vm_compute; reflexivity).
  split; [exact H|]. exact (constructor_forms _ _ H).
Defined.

Lemma field_items_length field : 1 ≤ length (field_items field).
Proof.
  unfold field_items, parse_field. repeat case_decide; cbn; try lia.
  rewrite length_fmap. apply split_length_pos.
Qed.

Lemma parsed_fields_length fields :
  length fields ≤ length (concat (field_items <$> fields)).
Proof.
  induction fields as [|f fields IH]; [done|].
  cbn. rewrite length_app. pose proof (field_items_length f). lia.
Qed.

(** At the empty path the items take their paths from the segment table,
    and a list longer than what is left of the table raises. *)
Lemma gen_dict_loop_overrun rec segs items : ∀ index d,
  index ≤ length segs → length segs < index + length items →
  gen_dict_loop rec segs [] items index d = None.
Proof.
  induction items as [|item items IH]; intros index d Hle Hlt;
    cbn [gen_dict_loop]; [cbn in Hlt; lia|].
  cbn [new_path]. destruct (segs !! index) as [p|] eqn:Hp; [|done].
  cbn [mbind option_bind]. destruct (rec item p); [|done].
  cbn [mbind option_bind]. apply lookup_lt_Some in Hp.
  apply IH; cbn in Hlt; lia.
Qed.

(** X7: when the first line of a message starts with the field delimiter,
    so that its identifier is empty, and has more fields than the message
    has lines, the constructor raises. *)
Theorem constructor_raises message line rest fields :
  Py.splitlines message = line :: rest →
  Py.split_ne "|" line = ([], fields) →
  length (line :: rest) < length fields →
  __init__ message = None.
Proof.
  intros Hlines Hline Hlen. unfold __init__. fold (fresh message).
  rewrite hl7_to_list_fresh. unfold list_to_dict.
  cbn [elist _segments mbind option_bind].
  assert (∃ names, sort_segments (raw_segments message) = [] :: names
                   ∧ length names = length rest) as (names & Hnames & Hn).
  { assert (raw_segments message
            = [] :: ((λ line, (Py.split_ne "|" line).1) <$> rest)) as ->.
    { unfold raw_segments. rewrite Hlines. cbn. by rewrite Hline. }
    set (ids := [] :: _).
    pose proof (sort_segments_lookup ids 0 [] eq_refl) as H0.
    pose proof (sort_segments_length ids) as Hl.
    destruct (sort_segments ids) as [|name names]; [done|].
    injection H0 as ->. exists names. split; [done|].
    subst ids. cbn in Hl. rewrite length_fmap in Hl. lia. }
  rewrite Hnames, Hlines.
  assert (_gen_dict ([] :: names)
            (Node (segment_tree <$> line :: rest)) [] = None) as ->; [|done].
  cbn [fmap list_fmap _gen_dict gen_dict_loop new_path].
  change (([] :: names) !! 0) with (Some (@nil ascii)).
  cbn [mbind option_bind].
  assert (_gen_dict ([] :: names) (segment_tree line) [] = None) as ->;
    [|done].
  unfold segment_tree. rewrite Hline, parse_fields. cbn [app snd _gen_dict].
  apply gen_dict_loop_overrun; [lia|].
  pose proof (parsed_fields_length fields). cbn in *. lia.
Qed.

Lemma constructor_raises_witness :
  Py.splitlines (lit "|a|b") = [lit "|a|b"]
  ∧ Py.split_ne "|" (lit "|a|b") = ([], [lit "a"; lit "b"])
  ∧ length [lit "|a|b"] < length [lit "a"; lit "b"]
  ∧ __init__ (lit "|a|b") = None.
Proof.
  assert (Py.splitlines (lit "|a|b") = [lit "|a|b"]) as H1 by reflexivity.
  assert (Py.split_ne "|" (lit "|a|b") = ([], [lit "a"; lit "b"])) as H2
    by reflexivity.
  assert (length [lit "|a|b"] < length [lit "a"; lit "b"]) as H3 by (cbn; lia).
  split; [exact H1|]. split; [exact H2|]. split; [exact H3|].
  exact (constructor_raises _ _ _ _ H1 H2 H3).
Defined.

(** X8: the constructor returns an object for every message in which no
    line has an empty segment identifier. *)
Theorem constructor_returns message :
  Forall (λ id, id ≠ []) (raw_segments message) → is_Some (__init__ message).
Proof. apply init_some. Qed.

Lemma constructor_returns_witness :
  Forall (λ id, id ≠ []) (raw_segments scenario)
  ∧ is_Some (__init__ scenario).
Proof.
  assert (Forall (λ id, id ≠ []) (raw_segments scenario)) as H
    by by_evaluation.
  split; [exact H|]. exact (constructor_returns _ H).
Defined.

Lemma rebuilt_texts lines :
  ∀ segs,
    Forall2 (λ line name, ∃ k, name = renamed k (Py.split_ne "|" line).1)
            lines segs →
    concat (zip_with (λ name c, (Py.split_ne "_" name).1 ++ "|" :: c) segs
              ((λ line, Py.join ["|"] (Py.split_ne "|" line).2 ++ [LF])
                 <$> lines))
    = terminated [LF] (rebuilt_line <$> lines).
Proof.
  intros segs Hnames.
  induction Hnames as [|line name lines segs [k ->] _ IH]; [done|].
  cbn [fmap list_fmap zip_with concat]. unfold terminated in *.
  cbn [fmap list_fmap concat]. rewrite IH. f_equal.
  rewrite renamed_first. unfold rebuilt_line. by rewrite <- app_assoc.
Qed.

Lemma list_to_hl7_constructed message self :
  __init__ message = Some self →
  list_to_hl7 self =
  Some (mkHL7 (hl7_message self) (_segments self) (elist self) (dict self)
              (json self)
              (Some (Py.join [LF] (rebuilt_line <$> Py.splitlines message)))).
Proof.
  intros Hself. destruct (init_inv _ _ Hself) as (d & _ & ->).
  unfold list_to_hl7. cbn [elist _segments hl7_message dict json].
  cbn [mbind option_bind]. rewrite gen_hl7_Node.
  set (segs := sort_segments (raw_segments message)).
  assert (Forall2 (λ item c,
            (∃ l, item = Node l) ∧ _gen_hl7 segs item (0 + 1) true = Some c)
            (segment_tree <$> Py.splitlines message)
            ((λ line, Py.join ["|"] (Py.split_ne "|" line).2 ++ [LF])
               <$> Py.splitlines message)) as Hitems.
  { apply Forall2_fmap. apply Forall_Forall2_diag, Forall_forall.
    intros line _. split; [by eexists|]. apply gen_segment. }
  rewrite (loop_segments _ _ _ _ Hitems segs); [|done|].
  - rewrite rebuilt_texts.
    + unfold gen_hl7_return. cbn.
      by rewrite removelast_terminated, app_nil_r.
    + pose proof (sort_segments_renamed (raw_segments message)) as H.
      unfold raw_segments in H at 1. by apply Forall2_fmap_l in H.
  - unfold segs.
    by rewrite sort_segments_length, raw_segments_length, length_fmap.
Qed.

(** X1: on every object that the constructor returns, [list_to_hl7]
    succeeds and changes nothing but the rebuilt text, which is, line by
    line and joined by new lines, the identifier of the line up to its
    first ["_"], the field delimiter, and the fields of the line joined
    by the field delimiter. *)
Theorem list_to_hl7_text message self :
  __init__ message = Some self →
  list_to_hl7 self =
  Some (mkHL7 (hl7_message self) (_segments self) (elist self) (dict self)
              (json self)
              (Some (Py.join [LF] (rebuilt_line <$> Py.splitlines message)))).
Proof. apply list_to_hl7_constructed. Qed.

Lemma list_to_hl7_text_witness :
  __init__ scenario = Some scenario_object
  ∧ list_to_hl7 scenario_object =
    Some (mkHL7 (hl7_message scenario_object) (_segments scenario_object)
                (elist scenario_object) (dict scenario_object)
                (json scenario_object)
                (Some (Py.join [LF] (rebuilt_line <$> Py.splitlines scenario)))).
Proof.
  assert (__init__ scenario = Some scenario_object) as H
    by (vm_compute; reflexivity).
  split; [exact H|]. exact (list_to_hl7_text _ _ H).
Defined.

End parser_and_serializer.

(** * Further properties: the views of the embedded list *)

Section views.

(** X10: for every value, not only for those of the parser, dropping the
    fillers of its JSON form gives the value back; so does
    [remove_fillers] on the forms of the items of a list. *)
Theorem array_view_inverse :
  (∀ value, remove_fillers_item (_gen_json value) = value)
  ∧ (∀ data, remove_fillers (_gen_json <$> data) = data).
Proof.
  split; [apply remove_fillers_gen_json|].
  intros data. unfold remove_fillers. rewrite <- list_fmap_compose.
  etrans; [|apply list_fmap_id].
  apply list_fmap_ext. intros _ item _. apply remove_fillers_gen_json.
Qed.

Lemma set_length {V} (d : pydict V) k v :
  length (Dict.set d k v) ≤ S (length d).
Proof.
  induction d as [|[k' v'] d IH]; cbn; [lia|].
  destruct (decide (k' = k)); cbn; lia.
Qed.

Lemma update_length {V} (other : pydict V) : ∀ d,
  length (Dict.update d other) ≤ length d + length other.
Proof.
  unfold Dict.update. induction other as [|[k v] other IH]; intros d;
    cbn [foldl length]; [lia|].
  etrans; [apply IH|]. pose proof (set_length d k v). cbn. lia.
Qed.

Lemma set_keys {V} (d : pydict V) k v :
  (Dict.set d k v).*1 = if decide (k ∈ d.*1) then d.*1 else d.*1 ++ [k].
Proof.
  induction d as [|[k' v'] d IH]; cbn.
  - rewrite decide_False; [done|]. apply not_elem_of_nil.
  - destruct (decide (k' = k)) as [->|Hne]; cbn.
    + rewrite decide_True; [done|]. by left.
    + rewrite IH. destruct (decide (k ∈ d.*1)) as [Hin|Hin].
      * rewrite decide_True; [done|]. by right.
      * rewrite decide_False; [done|].
        intros [?|?]%elem_of_cons; [by subst|done].
Qed.

Lemma set_NoDup {V} (d : pydict V) k v :
  NoDup (d.*1) → NoDup ((Dict.set d k v).*1).
Proof.
  intros H. rewrite set_keys. case_decide; [done|].
  apply NoDup_app. split; [done|]. split; [|apply NoDup_singleton].
  intros x Hx ->%list_elem_of_singleton. done.
Qed.

Lemma update_NoDup {V} (other : pydict V) : ∀ d,
  NoDup (d.*1) → NoDup ((Dict.update d other).*1).
Proof.
  unfold Dict.update. induction other as [|[k v] other IH]; intros d H;
    cbn [foldl]; [done|].
  apply IH. by apply set_NoDup.
Qed.

Lemma gen_dict_bound segs t : ∀ path d,
  _gen_dict segs t path = Some d → length d ≤ leaves t ∧ NoDup (d.*1).
Proof.
  induction t as [text|items IH] using tree_ind; intros path d Hd.
  - cbn in Hd. injection Hd as <-. split; [done|]. apply NoDup_singleton.
  - cbn [_gen_dict leaves] in *.
    enough (∀ index acc d,
      NoDup (acc.*1) →
      gen_dict_loop (_gen_dict segs) segs path items index acc = Some d →
      length d ≤ length acc + sum_list (leaves <$> items) ∧ NoDup (d.*1))
      as H by (apply (H 0 [] d); [constructor|done]).
    clear d Hd. induction IH as [|item items Hitem _ IHitems];
      intros index acc d Hacc Hd; cbn [gen_dict_loop] in Hd.
    + injection Hd as <-. split; [cbn; lia|done].
    + destruct (new_path segs path index) as [p|]; [|done].
      cbn [mbind option_bind] in Hd.
      destruct (_gen_dict segs item p) as [sub|] eqn:Hsub; [|done].
      cbn [mbind option_bind] in Hd.
      apply Hitem in Hsub as [Hsub _].
      apply IHitems in Hd as [Hd Hnd]; [|by apply update_NoDup].
      split; [|done]. pose proof (update_length sub acc). cbn. lia.
Qed.

(** X20: whenever [list_to_dict] succeeds, the keys of the dictionary it
    stores are pairwise distinct and the dictionary has at most as many
    entries as the embedded list has strings. *)
Theorem list_to_dict_bound self self' data d :
  list_to_dict self = Some self' →
  elist self = Some data → dict self' = Some d →
  length d ≤ leaves (Node data) ∧ NoDup (Dict.keys d).
Proof.
  unfold list_to_dict. intros H Hdata Hd. rewrite Hdata in H.
  cbn [mbind option_bind] in H.
  destruct (_gen_dict _ _ _) as [d'|] eqn:Hgen; [|done].
  cbn [mbind option_bind] in H. injection H as <-.
  cbn [dict] in Hd. injection Hd as <-.
  by apply gen_dict_bound in Hgen.
Qed.

Lemma list_to_dict_bound_witness :
  list_to_dict scenario_object = Some scenario_object
  ∧ elist scenario_object
    = Some [Node [Leaf (lit "|"); Leaf (lit "^~\&"); Leaf (lit "App");
                  Leaf (lit "Fac")];
            Node [Leaf (lit "A01"); Leaf (lit "20110613083617")]]
  ∧ dict scenario_object
    = Some [(lit "MSH.1", lit "|"); (lit "MSH.2", lit "^~\&");
            (lit "MSH.3", lit "App"); (lit "MSH.4", lit "Fac");
            (lit "EVN.1", lit "A01"); (lit "EVN.2", lit "20110613083617")]
  ∧ length [(lit "MSH.1", lit "|"); (lit "MSH.2", lit "^~\&");
            (lit "MSH.3", lit "App"); (lit "MSH.4", lit "Fac");
            (lit "EVN.1", lit "A01"); (lit "EVN.2", lit "20110613083617")]
    ≤ leaves (Node [Node [Leaf (lit "|"); Leaf (lit "^~\&");
                          Leaf (lit "App"); Leaf (lit "Fac")];
                    Node [Leaf (lit "A01"); Leaf (lit "20110613083617")]])
  ∧ NoDup (Dict.keys
             [(lit "MSH.1", lit "|"); (lit "MSH.2", lit "^~\&");
              (lit "MSH.3", lit "App"); (lit "MSH.4", lit "Fac");
              (lit "EVN.1", lit "A01"); (lit "EVN.2", lit "20110613083617")]).
Proof.
  assert (list_to_dict scenario_object = Some scenario_object) as H1
    by (vm_compute; reflexivity).
  split; [exact H1|]. split; [reflexivity|]. split; [reflexivity|].
  exact (list_to_dict_bound _ _ _ _ H1 eq_refl eq_refl).
Defined.

(** The object of a message with plain identifiers. *)
Lemma init_plain message self :
  __init__ message = Some self →
  Forall plain (raw_segments message) →
  let segs := sort_segments (raw_segments message) in
  let data := segment_tree <$> Py.splitlines message in
  self = mkHL7 (Py.strip message) segs (Some data) (Some (flat segs data))
               (Some (json_entries segs data)) None
  ∧ NoDup segs ∧ Forall (λ x, x ≠ []) segs ∧ Forall (λ x, "." ∉ x) segs
  ∧ length segs = length data.
Proof.
  intros Hself (Hne & Hus & Hdot)%plain_parts segs data.
  destruct (init_inv _ _ Hself) as (d & Hd & ->).
  fold segs data in Hd |- *.
  assert (length segs = length data) as Hlen.
  { unfold segs, data.
    by rewrite sort_segments_length, raw_segments_length, length_fmap. }
  assert (NoDup segs) as Hnd by by apply sort_segments_NoDup.
  assert (Forall (λ x, "." ∉ x) segs) as Hdots
    by by apply sort_segments_no_dot.
  assert (Forall (λ x, x ≠ []) segs) as Hnes
    by by apply sort_segments_nonempty.
  cbn [_gen_dict] in Hd.
  rewrite (gen_dict_top _ _ segs) in Hd;
    [|done|done|done|by apply flat_NoDup].
  injection Hd as <-. cbn [app].
  rewrite update_fresh by (cbn [app]; by rewrite json_entries_keys).
  done.
Qed.

Lemma entries_loop_elem path items k v : ∀ index,
  (k, v) ∈ entries_loop entries path items index →
  ∃ j item, items !! j = Some item
            ∧ (k, v) ∈ entries item
                         (path ++ "." :: Py.str_of_nat (index + j + 1)).
Proof.
  induction items as [|item items IH]; intros index H;
    cbn [entries_loop] in H.
  - by apply elem_of_nil in H.
  - apply elem_of_app in H as [H|H].
    + exists 0, item. split; [done|]. by rewrite Nat.add_0_r.
    + apply IH in H as (j & item' & Hj & H).
      exists (S j), item'. split; [done|].
      by replace (index + S j + 1) with (index + 1 + j + 1) by lia.
Qed.

Lemma path_of_cons path i indices :
  path_of (path ++ "." :: Py.str_of_nat i) indices
  = path_of path (i :: indices).
Proof. unfold path_of. cbn. by rewrite <- app_assoc. Qed.

(** An entry of a value is found in the JSON form of the value under the
    indices of its key. *)
Lemma entries_index t : ∀ path k v,
  (k, v) ∈ entries t path →
  ∃ indices, k = path_of path indices
             ∧ index_by (_gen_json t) indices = Some (Leaf v).
Proof.
  induction t as [text|items IH] using tree_ind; intros path k v H.
  - apply list_elem_of_singleton in H. injection H as -> ->.
    exists []. split; [|done]. unfold path_of. cbn. by rewrite app_nil_r.
  - cbn [entries] in H. apply entries_loop_elem in H as (j & item & Hj & H).
    eapply Forall_lookup_1 in IH; [|done].
    apply IH in H as (indices & -> & Hindex).
    exists ((j + 1) :: indices). split; [by rewrite path_of_cons|].
    change (_gen_json (Node items))
      with (Node (Leaf [] :: (_gen_json <$> items))).
    cbn [index_by]. unfold item_at. cbn [iter_items].
    rewrite Nat.add_1_r.
    change ((Leaf [] :: (_gen_json <$> items)) !! S j)
      with ((_gen_json <$> items) !! j).
    by rewrite list_lookup_fmap, Hj.
Qed.

Lemma flat_elem names data k v :
  (k, v) ∈ flat names data →
  ∃ i name item, names !! i = Some name ∧ data !! i = Some item
                 ∧ (k, v) ∈ entries item name.
Proof.
  unfold flat. revert data.
  induction names as [|name names IH]; intros [|item data] H;
    cbn in H; try by apply elem_of_nil in H.
  apply elem_of_app in H as [H|H].
  - by exists 0, name, item.
  - apply IH in H as (i & name' & item' & ? & ? & ?).
    by exists (S i), name', item'.
Qed.

Lemma json_entries_get names data i name item :
  NoDup names → names !! i = Some name → data !! i = Some item →
  Dict.get (json_entries names data) name = Some (iter_items (_gen_json item)).
Proof.
  unfold json_entries. intros Hnd. revert data i.
  induction Hnd as [|n names Hn Hnd IH]; intros [|it data] [|i] Hi Hitem;
    try done; cbn in *.
  - simplify_eq. by rewrite decide_True.
  - rewrite decide_False; [by eapply IH|].
    intros ->. apply Hn. by eapply list_elem_of_lookup_2.
Qed.

(** X11: for a message with plain identifiers, what the dictionary holds
    at the key [name.i1.i2...] is what the JSON form holds at
    [json[name][i1][i2]...]. *)
Theorem json_index_matches_path message self d j key value :
  __init__ message = Some self →
  Forall plain (raw_segments message) →
  dict self = Some d → json self = Some j →
  (key, value) ∈ d →
  ∃ name indices row,
    key = path_of name indices
    ∧ Dict.get j name = Some row
    ∧ index_by (Node row) indices = Some (Leaf value).
Proof.
  intros Hself Hplain Hd Hj Hin.
  destruct (init_plain _ _ Hself Hplain) as (-> & Hnd & _ & _ & Hlen).
  cbn [dict json] in Hd, Hj. injection Hd as <-. injection Hj as <-.
  apply flat_elem in Hin as (i & name & item & Hname & Hitem & Hin).
  apply entries_index in Hin as (indices & -> & Hindex).
  exists name, indices, (iter_items (_gen_json item)).
  split; [done|]. split; [by eapply json_entries_get|].
  rewrite list_lookup_fmap in Hitem.
  destruct (Py.splitlines message !! i) as [line|]; [|done].
  cbn in Hitem. injection Hitem as <-. exact Hindex.
Qed.

Lemma json_index_matches_path_witness :
  __init__ scenario = Some scenario_object
  ∧ Forall plain (raw_segments scenario)
  ∧ dict scenario_object
    = Some [(lit "MSH.1", lit "|"); (lit "MSH.2", lit "^~\&");
            (lit "MSH.3", lit "App"); (lit "MSH.4", lit "Fac");
            (lit "EVN.1", lit "A01"); (lit "EVN.2", lit "20110613083617")]
  ∧ json scenario_object
    = Some [(lit "MSH", [Leaf []; Leaf (lit "|"); Leaf (lit "^~\&");
                         Leaf (lit "App"); Leaf (lit "Fac")]);
            (lit "EVN", [Leaf []; Leaf (lit "A01");
                         Leaf (lit "20110613083617")])]
  ∧ (lit "EVN.2", lit "20110613083617")
    ∈ [(lit "MSH.1", lit "|"); (lit "MSH.2", lit "^~\&");
       (lit "MSH.3", lit "App"); (lit "MSH.4", lit "Fac");
       (lit "EVN.1", lit "A01"); (lit "EVN.2", lit "20110613083617")]
  ∧ ∃ name indices row,
      lit "EVN.2" = path_of name indices
      ∧ Dict.get [(lit "MSH", [Leaf []; Leaf (lit "|"); Leaf (lit "^~\&");
                               Leaf (lit "App"); Leaf (lit "Fac")]);
                  (lit "EVN", [Leaf []; Leaf (lit "A01");
                               Leaf (lit "20110613083617")])] name = Some row
      ∧ index_by (Node row) indices = Some (Leaf (lit "20110613083617")).
Proof.
  assert (__init__ scenario = Some scenario_object) as H1
    by (vm_compute; reflexivity).
  assert (Forall plain (raw_segments scenario)) as H2.
  { unfold plain. by_evaluation. }
  assert ((lit "EVN.2", lit "20110613083617")
    ∈ [(lit "MSH.1", lit "|"); (lit "MSH.2", lit "^~\&");
       (lit "MSH.3", lit "App"); (lit "MSH.4", lit "Fac");
       (lit "EVN.1", lit "A01"); (lit "EVN.2", lit "20110613083617")]) as H3
    by by_evaluation.
  split; [exact H1|]. split; [exact H2|]. split; [reflexivity|].
  split; [reflexivity|]. split; [exact H3|].
  exact (json_index_matches_path _ _ _ _ _ _ H1 H2 eq_refl eq_refl H3).
Defined.

End views.

(** * Further properties: the structure report *)

Section report.

Lemma dots_app a b : dots (a ++ b) = dots a + dots b.
Proof. unfold dots. by rewrite filter_app, length_app. Qed.

Lemma dots_zero p : "." ∉ p → dots p = 0.
Proof.
  intros H. unfold dots. apply length_zero_iff_nil, elem_of_nil_inv.
  intros c [-> Hc]%list_elem_of_filter. done.
Qed.

Lemma dots_step path n :
  dots (path ++ "." :: Py.str_of_nat n) = dots path + 1.
Proof.
  rewrite dots_app. change ("." :: Py.str_of_nat n)
    with (["."] ++ Py.str_of_nat n).
  rewrite dots_app, (dots_zero (Py.str_of_nat n)); [done|].
  apply str_of_nat_no_dot.
Qed.

Lemma gen_structure_entries segs t : ∀ path level indent,
  path ≠ [] →
  _gen_structure segs t path level indent
  = Some (concat (line_below path indent <$> entries t path)).
Proof.
  induction t as [text|items IH] using tree_ind; intros path level indent Hp.
  - cbn [_gen_structure entries fmap list_fmap concat].
    unfold line_below. cbn [fst snd]. rewrite app_nil_r. do 2 f_equal. lia.
  - cbn [_gen_structure entries].
    enough (∀ index result,
      gen_structure_loop (_gen_structure segs) segs path level indent
                         items index result
      = Some (result ++ concat (line_below path indent
                                  <$> entries_loop entries path items index)))
      as H by (by rewrite H).
    induction IH as [|item items Hitem _ IHitems]; intros index result;
      cbn [gen_structure_loop entries_loop].
    + cbn. by rewrite app_nil_r.
    + rewrite new_path_nonempty by done. cbn [mbind option_bind].
      rewrite Hitem by by apply app_nonempty. cbn [mbind option_bind].
      rewrite IHitems, fmap_app, concat_app, <- app_assoc. do 2 f_equal.
      f_equal. f_equal.
      apply list_fmap_ext. intros _ [k v] _. unfold line_below. cbn [fst snd].
      rewrite dots_step. f_equal. lia.
Qed.

Lemma gen_structure_top segs items : ∀ names index result,
  drop index segs = names → length names = length items →
  Forall (λ x, x ≠ []) names → Forall (λ x, "." ∉ x) names →
  gen_structure_loop (_gen_structure segs) segs [] 0 (-8) items index result
  = Some (result ++ concat (report_line <$> flat names items)).
Proof.
  induction items as [|item items IH];
    intros names index result Hdrop Hlen Hne Hdot;
    cbn [gen_structure_loop].
  - destruct names; [|done]. cbn. by rewrite app_nil_r.
  - destruct names as [|name names]; [done|].
    apply drop_lookup_head in Hdrop as [Hname Hdrop].
    apply Forall_cons in Hne as [Hn Hne].
    apply Forall_cons in Hdot as [Hd Hdot].
    cbn [new_path]. rewrite Hname. cbn [mbind option_bind].
    rewrite gen_structure_entries by done. cbn [mbind option_bind].
    rewrite (IH names); [|done|cbn in Hlen; lia|done|done].
    unfold flat. cbn [zip_with concat].
    rewrite fmap_app, concat_app, <- app_assoc. do 2 f_equal.
    f_equal. f_equal.
    apply list_fmap_ext. intros _ [k v] _.
    unfold line_below, report_line. cbn [fst snd].
    rewrite (dots_zero name) by done. f_equal. lia.
Qed.

(** X12: for a message with plain identifiers the structure report has
    one line per entry of the flat dictionary, in the order of the
    dictionary: the key, a colon and the text, or [*empty*] for an empty
    text, indented by four spaces for every level below the fields. *)
Theorem structure_lists_dict message self d :
  __init__ message = Some self →
  Forall plain (raw_segments message) →
  dict self = Some d →
  structure self = Some (concat (report_line <$> d)).
Proof.
  intros Hself Hplain Hd.
  destruct (init_plain _ _ Hself Hplain) as (-> & Hnd & Hne & Hdot & Hlen).
  cbn [dict] in Hd. injection Hd as <-.
  unfold structure. cbn [elist _segments _gen_structure].
  by rewrite (gen_structure_top _ _ (sort_segments (raw_segments message))).
Qed.

Lemma structure_lists_dict_witness :
  __init__ scenario = Some scenario_object
  ∧ Forall plain (raw_segments scenario)
  ∧ dict scenario_object
    = Some [(lit "MSH.1", lit "|"); (lit "MSH.2", lit "^~\&");
            (lit "MSH.3", lit "App"); (lit "MSH.4", lit "Fac");
            (lit "EVN.1", lit "A01"); (lit "EVN.2", lit "20110613083617")]
  ∧ structure scenario_object
    = Some (concat (report_line <$>
              [(lit "MSH.1", lit "|"); (lit "MSH.2", lit "^~\&");
               (lit "MSH.3", lit "App"); (lit "MSH.4", lit "Fac");
               (lit "EVN.1", lit "A01");
               (lit "EVN.2", lit "20110613083617")])).
Proof.
  assert (__init__ scenario = Some scenario_object) as H1
    by (vm_compute; reflexivity).
  assert (Forall plain (raw_segments scenario)) as H2.
  { unfold plain. by_evaluation. }
  split; [exact H1|]. split; [exact H2|]. split; [reflexivity|].
  exact (structure_lists_dict _ _ _ H1 H2 eq_refl).
Defined.

End report.

(** * Further properties: parsing again *)

Section parsing_again.

(** X19: [hl7_to_list] appends the identifiers of the text it parses to
    the segment table that is there; called on an object that the
    constructor returned, without a message, it leaves a table that has
    one name per line of the first parse and one more per line of the
    second, for a list of one segment per line of the second parse. *)
Theorem hl7_to_list_again message self :
  __init__ message = Some self →
  let again := hl7_to_list self None in
  _segments again
  = sort_segments (_segments self ++ raw_segments (hl7_message self))
  ∧ elist again = Some (segment_tree <$> Py.splitlines (hl7_message self))
  ∧ length (_segments again)
    = length (Py.splitlines message)
      + length (Py.splitlines (Py.strip message))
  ∧ dict again = dict self ∧ json again = json self.
Proof.
  intros Hself. destruct (init_inv _ _ Hself) as (d & _ & ->).
  unfold hl7_to_list. cbn [hl7_message _segments elist dict json hl7].
  rewrite parse_fold. cbn [_sort_segments _segments elist dict json app].
  fold (raw_segments (Py.strip message)).
  split; [done|]. split; [done|]. split; [|done].
  rewrite sort_segments_length, length_app, sort_segments_length.
  by rewrite !raw_segments_length.
Qed.

Lemma hl7_to_list_again_witness :
  __init__ scenario = Some scenario_object
  ∧ _segments (hl7_to_list scenario_object None)
    = sort_segments (_segments scenario_object
                     ++ raw_segments (hl7_message scenario_object))
  ∧ elist (hl7_to_list scenario_object None)
    = Some (segment_tree <$> Py.splitlines (hl7_message scenario_object))
  ∧ length (_segments (hl7_to_list scenario_object None))
    = length (Py.splitlines scenario)
      + length (Py.splitlines (Py.strip scenario))
  ∧ dict (hl7_to_list scenario_object None) = dict scenario_object
  ∧ json (hl7_to_list scenario_object None) = json scenario_object.
Proof.
  assert (__init__ scenario = Some scenario_object) as H
    by (vm_compute; reflexivity).
  split; [exact H|]. exact (hl7_to_list_again _ _ H).
Defined.

End parsing_again.

(** * Further properties: from the dictionary to the list *)

Section dictionary_to_list.

Lemma get_set_eq {V} (d : pydict V) k v : Dict.get (Dict.set d k v) k = Some v.
Proof.
  induction d as [|[k' v'] d IH]; cbn.
  - by rewrite decide_True.
  - destruct (decide (k' = k)) as [->|Hne]; cbn.
    + by rewrite decide_True.
    + by rewrite decide_False.
Qed.

Lemma get_Some_key {V} (d : pydict V) k v : Dict.get d k = Some v → k ∈ d.*1.
Proof.
  induction d as [|[k' v'] d IH]; cbn; [done|].
  destruct (decide (k' = k)) as [->|Hne]; [by left|].
  intros H. right. by apply IH.
Qed.

Lemma get_None_key {V} (d : pydict V) k : Dict.get d k = None → k ∉ d.*1.
Proof.
  induction d as [|[k' v'] d IH]; cbn; [intros _; apply not_elem_of_nil|].
  destruct (decide (k' = k)) as [->|Hne]; [done|].
  intros H [?|?]%elem_of_cons; [by subst|by apply IH].
Qed.

Lemma get_last {V} (d : pydict V) k v :
  k ∉ d.*1 → Dict.get (d ++ [(k, v)]) k = Some v.
Proof.
  induction d as [|[k' v'] d IH]; cbn; intros H.
  - by rewrite decide_True.
  - rewrite decide_False by (intros ->; apply H; by left).
    apply IH. intros ?. apply H. by right.
Qed.

Lemma set_last {V} (d : pydict V) k v w :
  k ∉ d.*1 → Dict.set (d ++ [(k, v)]) k w = d ++ [(k, w)].
Proof.
  induction d as [|[k' v'] d IH]; cbn; intros H.
  - by rewrite decide_True.
  - rewrite decide_False by (intros ->; apply H; by left).
    rewrite IH; [done|]. intros ?. apply H. by right.
Qed.

Lemma append_to_keys segs id item segs' :
  append_to segs id item = Some segs' → segs'.*1 = segs.*1.
Proof.
  unfold append_to. destruct (Dict.get segs id) as [l|] eqn:Hget; [|done].
  cbn. intros [= <-]. rewrite set_keys, decide_True; [done|].
  by eapply get_Some_key.
Qed.

(** A tactic for the branches of the loop body: every branch that
    succeeds reaches the accumulators through [append_to] only. *)
Ltac branch_keys :=
  repeat match goal with
         | H : Some _ = Some _ |- _ => injection H as <-
         | H : None = Some _ |- _ => discriminate H
         | H : _ ≫= _ = Some _ |- _ =>
             apply bind_Some in H as (? & ? & H)
         | H : append_to _ _ _ = Some _ |- _ => apply append_to_keys in H
         | H : context [match ?x with _ => _ end] |- _ =>
             destruct x eqn:?; cbn [segments] in *
         | H : (let '(_, _) := ?x in _) = _ |- _ => destruct x
         end;
  cbn [segments] in *; try congruence.

Lemma flush_keys b id b' :
  flush b id = Some b' → (segments b').*1 = (segments b).*1.
Proof. unfold flush. intros H. branch_keys. Qed.

Lemma same_depth_keys b id key value depth b' :
  same_depth b id key value depth = Some b' →
  (segments b').*1 = (segments b).*1.
Proof. unfold same_depth. intros H. branch_keys. Qed.

Lemma deeper_keys b id key value depth b' :
  deeper b id key value depth = Some b' →
  (segments b').*1 = (segments b).*1.
Proof. unfold deeper. intros H. branch_keys. Qed.

Lemma shallower_keys b id key value depth b' :
  shallower b id key value depth = Some b' →
  (segments b').*1 = (segments b).*1.
Proof.
  unfold shallower. intros H.
  destruct depth as [|[|[|depth]]]; [by simplify_eq| | |by simplify_eq].
  - apply bind_Some in H as (b1 & H1 & H). apply flush_keys in H1.
    branch_keys.
  - branch_keys.
Qed.

Lemma dict_step_keys size b entry b' :
  dict_step size b entry = Some b' →
  (segments b').*1 = add_key (segments b).*1 (key_segment entry).
Proof.
  unfold dict_step, key_segment. destruct entry as [key value]. cbn [fst].
  set (id := (Py.split_ne "." key).1).
  set (depth := length (Py.split "." key) - 1).
  set (b0 := match Dict.get (segments b) id with Some _ => b | None => _ end).
  assert ((segments b0).*1 = add_key (segments b).*1 id) as Hb0.
  { unfold b0, add_key. destruct (Dict.get (segments b) id) eqn:Hget.
    - rewrite decide_True; [done|]. by eapply get_Some_key.
    - cbn [segments]. rewrite set_keys. apply get_None_key in Hget.
      by rewrite !decide_False. }
  intros H. apply bind_Some in H as (b1 & H1 & H).
  apply bind_Some in H as (b2 & H2 & H). injection H as <-.
  cbn [segments]. rewrite <- Hb0.
  assert ((segments b1).*1 = (segments b0).*1) as <-.
  { destruct (depth =? prev_depth b0); [by eapply same_depth_keys|].
    destruct (prev_depth b0 <? depth);
      [by eapply deeper_keys|by eapply shallower_keys]. }
  destruct (count b1 =? size); [by eapply flush_keys|by injection H2 as <-].
Qed.

Lemma dict_fold_keys size entries : ∀ b b',
  foldl (λ acc entry, b ← acc; dict_step size b entry) (Some b) entries
  = Some b' →
  (segments b').*1 = foldl add_key (segments b).*1 (key_segment <$> entries).
Proof.
  induction entries as [|entry entries IH]; intros b b' H; cbn [foldl] in H.
  - by injection H as <-.
  - cbn [mbind option_bind] in H.
    destruct (dict_step size b entry) as [b1|] eqn:H1.
    + apply IH in H. rewrite H. cbn [fmap list_fmap foldl].
      by rewrite (dict_step_keys _ _ _ _ H1).
    + exfalso. clear IH H1. induction entries as [|e es IHe]; [done|].
      by apply IHe.
Qed.

Lemma first_occurrences_bound ids : ∀ keys,
  length (foldl add_key keys ids) ≤ length keys + length ids.
Proof.
  induction ids as [|id ids IH]; intros keys; cbn [foldl length]; [lia|].
  etrans; [apply IH|]. unfold add_key. case_decide; [lia|].
  rewrite length_app. cbn. lia.
Qed.

(** X21: when [dict_to_list] succeeds, the embedded list it stores has
    one segment for every segment identifier that heads a key of the
    dictionary, in the order in which the identifiers first occur; a
    segment without entries is not rebuilt, and there are never more
    segments than entries. *)
Theorem dict_to_list_segments self self' d :
  dict_to_list self = Some self' → dict self = Some d →
  ∃ data, elist self' = Some data
          ∧ length data = length (first_occurrences (key_segment <$> d))
          ∧ length data ≤ length d.
Proof.
  unfold dict_to_list. intros H Hd. rewrite Hd in H.
  cbn [mbind option_bind] in H.
  destruct (dict_loop d) as [b|] eqn:Hb; [|done].
  cbn [mbind option_bind] in H. injection H as <-. cbn [elist].
  eexists. split; [done|].
  apply dict_fold_keys in Hb.
  change (foldl add_key _ _)
    with (first_occurrences (key_segment <$> d)) in Hb.
  unfold Dict.values. rewrite !length_fmap.
  rewrite <- (length_fmap fst), Hb. split; [done|].
  pose proof (first_occurrences_bound (key_segment <$> d) []) as Hle.
  rewrite length_fmap in Hle. unfold first_occurrences. cbn in Hle. lia.
Qed.

Lemma dict_to_list_segments_witness :
  dict_to_list scenario_object
  = Some (mkHL7 (hl7_message scenario_object) (_segments scenario_object)
                (elist scenario_object) (dict scenario_object)
                (json scenario_object) None)
  ∧ dict scenario_object
    = Some [(lit "MSH.1", lit "|"); (lit "MSH.2", lit "^~\&");
            (lit "MSH.3", lit "App"); (lit "MSH.4", lit "Fac");
            (lit "EVN.1", lit "A01"); (lit "EVN.2", lit "20110613083617")]
  ∧ ∃ data,
      elist (mkHL7 (hl7_message scenario_object) (_segments scenario_object)
                   (elist scenario_object) (dict scenario_object)
                   (json scenario_object) None) = Some data
      ∧ length data
        = length (first_occurrences (key_segment <$>
            [(lit "MSH.1", lit "|"); (lit "MSH.2", lit "^~\&");
             (lit "MSH.3", lit "App"); (lit "MSH.4", lit "Fac");
             (lit "EVN.1", lit "A01");
             (lit "EVN.2", lit "20110613083617")]))
      ∧ length data
        ≤ length [(lit "MSH.1", lit "|"); (lit "MSH.2", lit "^~\&");
                  (lit "MSH.3", lit "App"); (lit "MSH.4", lit "Fac");
                  (lit "EVN.1", lit "A01");
                  (lit "EVN.2", lit "20110613083617")].
Proof.
  assert (dict_to_list scenario_object
          = Some (mkHL7 (hl7_message scenario_object)
                        (_segments scenario_object)
                        (elist scenario_object) (dict scenario_object)
                        (json scenario_object) None)) as H
    by (vm_compute; reflexivity).
  split; [exact H|]. split; [reflexivity|].
  exact (dict_to_list_segments _ _ _ H eq_refl).
Defined.

End dictionary_to_list.

(** * Further properties: the round trip of simple messages *)

Section simple_round_trip.

Lemma split_ne_app_sep sep a b :
  sep ∉ a →
  Py.split_ne sep (a ++ sep :: b) = (a, Py.split sep b).
Proof.
  unfold Py.split. induction a as [|c a IH]; intros Ha; cbn.
  - destruct (Py.split_ne sep b). by rewrite decide_True.
  - rewrite IH by (intros ?; apply Ha; by right).
    destruct (Py.split_ne sep b).
    by rewrite decide_False by (intros ->; apply Ha; by left).
Qed.

Lemma field_key name n :
  "." ∉ name →
  Py.split_ne "." (name ++ "." :: Py.str_of_nat n)
  = (name, [Py.str_of_nat n]).
Proof.
  intros H. rewrite split_ne_app_sep by done. unfold Py.split.
  by rewrite (split_ne_absent _ _ (str_of_nat_no_dot n)).
Qed.

Lemma flush_idle b id : idle b → flush b id = Some b.
Proof.
  intros (Hs & _ & Hl & _). unfold flush. rewrite Hl.
  cbn [mbind option_bind]. by rewrite Hs.
Qed.

(** With nothing open, the entry of a field is appended to the list of
    its segment. *)
Lemma field_step size b name n value l :
  idle b → "." ∉ name →
  Dict.get (segments b) name = Some l →
  ∃ b', dict_step size b (name ++ "." :: Py.str_of_nat n, value) = Some b'
        ∧ idle b'
        ∧ segments b' = Dict.set (segments b) name (l ++ [Leaf value]).
Proof.
  intros Hidle Hname Hget. unfold dict_step.
  unfold Py.split. rewrite field_key by done. cbn [fst length].
  rewrite Hget. pose proof Hidle as (Hs & Hr & Hl & Hd). rewrite Hd.
  cbn [Nat.sub Nat.eqb same_depth]. unfold append_to. rewrite Hget.
  cbn [mbind option_bind segments count].
  set (b1 := mkBuffers _ _ _ _ _ _ _ _ _).
  assert (idle b1) as Hidle1 by done.
  assert ((if count b =? size then flush b1 name else Some b1) = Some b1) as ->
    by (destruct (count b =? size); [by apply flush_idle|done]).
  cbn [mbind option_bind]. eexists. split; [done|].
  split; [|done]. unfold idle. by cbn.
Qed.

Lemma fields_fold size name texts : ∀ index b prefix l,
  idle b → "." ∉ name → name ∉ prefix.*1 →
  segments b = prefix ++ [(name, l)] →
  ∃ b', foldl (λ acc entry, b ← acc; dict_step size b entry) (Some b)
          (entries_loop entries name (Leaf <$> texts) index) = Some b'
        ∧ idle b'
        ∧ segments b' = prefix ++ [(name, l ++ (Leaf <$> texts))].
Proof.
  induction texts as [|text texts IH]; intros index b prefix l Hidle Hn Hp Hb.
  - exists b. cbn. by rewrite app_nil_r.
  - cbn [fmap list_fmap entries_loop entries app foldl mbind option_bind].
    destruct (field_step size b name (index + 1) text l) as (b1 & -> & H1 & Hs);
      [done|done|by rewrite Hb, get_last|].
    rewrite Hb, set_last in Hs by done.
    destruct (IH (index + 1) b1 prefix (l ++ [Leaf text]))
      as (b' & -> & ? & Hs'); [done..|].
    exists b'. split; [done|]. split; [done|].
    by rewrite Hs', <- app_assoc.
Qed.

(** The entries of a segment of strings, read with nothing open and the
    segment not yet seen, add the segment and its strings. *)
Lemma segment_fold size name text texts b :
  idle b → "." ∉ name → name ∉ (segments b).*1 →
  ∃ b', foldl (λ acc entry, b ← acc; dict_step size b entry) (Some b)
          (entries (Node (Leaf <$> text :: texts)) name) = Some b'
        ∧ idle b'
        ∧ segments b' = segments b ++ [(name, Leaf <$> text :: texts)].
Proof.
  intros Hidle Hn Hfresh.
  cbn [entries fmap list_fmap entries_loop app foldl mbind option_bind].
  assert (∃ b1, dict_step size b (name ++ "." :: Py.str_of_nat (0 + 1), text)
                = Some b1 ∧ idle b1
                ∧ segments b1 = segments b ++ [(name, [Leaf text])])
    as (b1 & -> & H1 & Hs).
  { set (b0 := mkBuffers (Dict.set (segments b) name []) (subfield_list b)
                 (repeats b) (repeats_list b) (prev_segment b) (prev_depth b)
                 (prev_subfield_position b) (prev_repeat_position b) (count b)).
    destruct (field_step size b0 name (0 + 1) text []) as (b1 & Hstep & H1 & Hs);
      [done|done|apply get_set_eq|].
    exists b1. split; [|split; [done|]].
    - rewrite <- Hstep. unfold dict_step.
      unfold Py.split. rewrite field_key by done. cbn [fst].
      destruct (Dict.get (segments b) name) eqn:Hget.
      { apply get_Some_key in Hget. done. }
      subst b0. cbn [segments]. by rewrite get_set_eq.
    - rewrite Hs. unfold b0. cbn [segments app].
      rewrite (set_fresh (segments b) name []) by done.
      by rewrite set_last. }
  destruct (fields_fold size name texts (0 + 1) b1 (segments b) [Leaf text])
    as (b' & -> & ? & Hs'); [done..|].
  exists b'. by rewrite Hs'.
Qed.

Lemma foldl_step_app size (l1 l2 : pydict str) b b1 :
  foldl (λ acc entry, b ← acc; dict_step size b entry) (Some b) l1 = Some b1 →
  foldl (λ acc entry, b ← acc; dict_step size b entry) (Some b) (l1 ++ l2)
  = foldl (λ acc entry, b ← acc; dict_step size b entry) (Some b1) l2.
Proof. intros H. by rewrite foldl_app, H. Qed.

(** The entries of a message of segments of strings rebuild, from
    nothing, the segments in their order. *)
Lemma message_fold (size : nat) (names : list str) :
  ∀ (textss : list (list str)) (b : buffers),
  NoDup names → Forall (λ x, "." ∉ x) names →
  length names = length textss →
  Forall (λ texts : list str, texts ≠ []) textss →
  idle b → (∀ name, name ∈ names → name ∉ (segments b).*1) →
  ∃ b' : buffers,
    foldl (λ (acc : option buffers) entry, b ← acc; dict_step size b entry)
          (Some b)
          (flat names ((λ texts : list str, Node (Leaf <$> texts)) <$> textss))
    = Some b'
    ∧ segments b'
      = segments b
        ++ zip names ((λ texts : list str, Leaf <$> texts) <$> textss).
Proof.
  induction names as [|name names IH];
    intros [|texts textss] b Hnd Hdot Hlen Hne Hidle Hfresh; try done.
  - exists b. cbn. by rewrite app_nil_r.
  - apply NoDup_cons in Hnd as [Hname Hnd].
    apply Forall_cons in Hdot as [Hd Hdot].
    apply Forall_cons in Hne as [Ht Hne].
    destruct texts as [|text texts]; [done|].
    unfold flat. cbn [fmap list_fmap zip_with concat].
    destruct (segment_fold size name text texts b) as (b1 & H1 & Hidle1 & Hs1);
      [done|done|apply Hfresh; by left|].
    rewrite (foldl_step_app _ _ _ _ _ H1).
    destruct (IH textss b1) as (b' & H' & Hs');
      [done|done|by injection Hlen|done|done| |].
    + intros n Hn. rewrite Hs1, fmap_app. cbn.
      intros [?|?%list_elem_of_singleton]%elem_of_app.
      * eapply Hfresh; [by right|done].
      * by subst.
    + exists b'. split; [exact H'|]. rewrite Hs', Hs1. cbn [zip zip_with].
      by rewrite <- app_assoc.
Qed.

Lemma simple_field_items field :
  simple_field field = true → field_items field = Leaf <$> simple_texts field.
Proof.
  unfold simple_field, field_items, parse_field, simple_texts.
  destruct (decide (field = encoding_characters)); [done|].
  rewrite bool_decide_eq_false_2 by done. cbn [orb].
  intros [H1 H2]%andb_prop.
  apply bool_decide_eq_true in H1, H2.
  rewrite decide_False by done.
  rewrite decide_True by by apply split_length_1.
  unfold Py.split. by rewrite split_ne_absent.
Qed.

Lemma simple_line_inv line :
  simple_line line = true →
  "|" ∈ line ∧ plain (Py.split_ne "|" line).1
  ∧ forallb simple_field (Py.split_ne "|" line).2 = true.
Proof.
  unfold simple_line, plain.
  intros [[[[H1 H2]%andb_prop H3]%andb_prop H4]%andb_prop H5]%andb_prop.
  apply bool_decide_eq_true in H1, H2, H3, H4. done.
Qed.

(** The list of a simple line: the strings of its fields, of which there
    is at least one. *)
Lemma simple_segment_tree line :
  simple_line line = true →
  ∃ texts, texts ≠ [] ∧ segment_tree line = Node (Leaf <$> texts).
Proof.
  intros (Hbar & _ & Hfields)%simple_line_inv.
  apply split_ne_present in Hbar.
  unfold segment_tree. rewrite parse_fields. cbn [app].
  destruct (Py.split_ne "|" line).2 as [|f fields]; [done|].
  exists (concat (simple_texts <$> f :: fields)). split.
  - cbn. unfold simple_texts at 1. by case_decide.
  - f_equal. clear Hbar.
    induction (f :: fields) as [|g gs IH]; [done|].
    cbn [forallb] in Hfields. apply andb_prop in Hfields as [Hg Hgs].
    rewrite !fmap_cons. cbn [concat].
    by rewrite fmap_app, (IH Hgs), simple_field_items.
Qed.

(** X9: for a message whose lines have a plain identifier, the field
    delimiter, and fields that are the encoding characters or free of
    ["^"] and ["~"], the constructor returns an object, [dict_to_list]
    succeeds on it, and the embedded list it stores is the embedded list
    of the parser; nothing else of the object changes. *)
Theorem dict_round_trip_simple message :
  simple_message message = true →
  ∃ self, __init__ message = Some self ∧ dict_to_list self = Some self.
Proof.
  intros Hsimple. unfold simple_message in Hsimple.
  assert (Forall plain (raw_segments message)) as Hplain.
  { unfold raw_segments. apply Forall_fmap, Forall_forall.
    intros line Hline. cbn.
    eapply (proj1 (forallb_forall _ _)) in Hsimple;
      [|by apply list_elem_of_In].
    by apply simple_line_inv in Hsimple as (_ & ? & _). }
  destruct (init_some message) as [self Hself];
    [by apply plain_parts in Hplain as (? & _)|].
  exists self. split; [done|].
  destruct (init_plain _ _ Hself Hplain) as (-> & Hnd & Hne & Hdot & Hlen).
  assert (∃ textss, Forall (λ texts, texts ≠ []) textss
            ∧ segment_tree <$> Py.splitlines message
              = (λ texts, Node (Leaf <$> texts)) <$> textss)
    as (textss & Htexts & Hdata).
  { clear Hself Hplain Hnd Hne Hdot Hlen.
    induction (Py.splitlines message) as [|line lines IH].
    - by exists [].
    - cbn [forallb] in Hsimple. apply andb_prop in Hsimple as [Hline Hlines].
      destruct (IH Hlines) as (textss & ? & Heq).
      destruct (simple_segment_tree line Hline) as (texts & ? & Hseg).
      exists (texts :: textss). split; [by constructor|].
      cbn [fmap list_fmap]. by rewrite Hseg, <- Heq. }
  rewrite Hdata in *. rewrite length_fmap in Hlen.
  unfold dict_to_list. cbn [dict mbind option_bind]. unfold dict_loop.
  destruct (message_fold
              (length (flat (sort_segments (raw_segments message))
                         ((λ texts, Node (Leaf <$> texts)) <$> textss)))
              (sort_segments (raw_segments message)) textss initial_buffers)
    as (b' & -> & Hs); [done..| |].
  { intros name _. apply not_elem_of_nil. }
  cbn [mbind option_bind hl7_message _segments dict json hl7].
  rewrite Hs. cbn [segments initial_buffers app]. do 3 f_equal.
  unfold Dict.values. rewrite snd_zip by (rewrite length_fmap; lia).
  by rewrite <- list_fmap_compose.
Qed.

Lemma dict_round_trip_simple_witness :
  simple_message scenario = true
  ∧ ∃ self, __init__ scenario = Some self ∧ dict_to_list self = Some self.
Proof.
  assert (simple_message scenario = true) as H by (vm_compute; reflexivity).
  split; [exact H|]. exact (dict_round_trip_simple _ H).
Defined.

End simple_round_trip.

(** * Further properties: the test harness *)

Section test_harness.

Lemma list_to_hl7_message self self' :
  list_to_hl7 self = Some self' → hl7_message self' = hl7_message self.
Proof.
  unfold list_to_hl7. destruct (elist self); [|done]. cbn [mbind option_bind].
  destruct (_gen_hl7 _ _ _ _); [|done]. cbn. by intros [= <-].
Qed.

Lemma dict_to_list_message self self' :
  dict_to_list self = Some self' → hl7_message self' = hl7_message self.
Proof.
  unfold dict_to_list. destruct (dict self); [|done]. cbn [mbind option_bind].
  destruct (dict_loop _); [|done]. cbn. by intros [= <-].
Qed.

Lemma json_to_list_object self r :
  json_to_list self = Some r → r.1 = self.
Proof.
  unfold json_to_list. destruct (json self); [|done]. cbn. by intros [= <-].
Qed.

Lemma compare_equal current_time h test filename text :
  compare current_time h test filename text text
  = log_result current_time (mkHarness (passed h + 1) (failed h) (log h))
               test true filename.
Proof. unfold compare. by rewrite decide_False by (intros H; by apply H). Qed.

(** X16: [test_all_to_hl7] compares the stored message with itself, so it
    never counts a failure, whatever the object and whatever the
    conversions build: each comparison it reaches counts as passed and
    writes one line to the log, and a run in which no conversion raises
    counts three. *)
Theorem test_all_to_hl7_never_fails t1 t2 t3 h hl7 filename :
  let r := test_all_to_hl7 t1 t2 t3 h hl7 filename in
  failed r.1 = failed h
  ∧ (passed h ≤ passed r.1 ≤ passed h + 3)%Z
  ∧ Z.of_nat (length (log r.1))
    = (Z.of_nat (length (log h)) + (passed r.1 - passed h))%Z
  ∧ match r.2 with
    | Some _ => passed r.1 = (passed h + 3)%Z
    | None => (passed r.1 < passed h + 3)%Z
    end.
Proof.
  unfold test_all_to_hl7.
  destruct (list_to_hl7 hl7) as [o1|] eqn:H1; cbn [fst snd]; [|lia].
  rewrite (list_to_hl7_message _ _ H1), compare_equal.
  destruct (dict_to_list o1 ≫= list_to_hl7) as [o2|] eqn:H2; cbn [fst snd].
  2:{ cbn. rewrite length_app. cbn. lia. }
  apply bind_Some in H2 as (o2' & H2 & H2').
  rewrite (list_to_hl7_message _ _ H2'), (dict_to_list_message _ _ H2).
  rewrite (list_to_hl7_message _ _ H1), compare_equal.
  destruct (json_to_list o2 ≫= _) as [o3|] eqn:H3; cbn [fst snd].
  2:{ cbn. rewrite !length_app. cbn. lia. }
  apply bind_Some in H3 as (r3 & H3 & H3').
  rewrite (list_to_hl7_message _ _ H3'), (json_to_list_object _ _ H3).
  rewrite (list_to_hl7_message _ _ H2'), (dict_to_list_message _ _ H2).
  rewrite (list_to_hl7_message _ _ H1), compare_equal.
  cbn. rewrite !length_app. cbn. lia.
Qed.

End test_harness.

(** * Further properties: the exports *)

Section exports.

Lemma endswith_app path ext : endswith (path ++ ext) ext = true.
Proof.
  unfold endswith. apply bool_decide_eq_true. rewrite length_app.
  replace (length path + length ext - length ext) with (length path) by lia.
  by rewrite drop_app_length.
Qed.

Lemma with_extension_endswith path ext :
  endswith (with_extension path ext) ext = true.
Proof.
  unfold with_extension. destruct (endswith path ext) eqn:H; [done|].
  apply endswith_app.
Qed.

(** X18: whatever the object and the format, the file that [export]
    writes, or opens before it raises, has a path that ends with the
    extension of the format: the given path when it already ends with
    that extension, the given path with the extension appended when it
    does not; for the formats [dict] and [dictionary] the extension
    [.txt] is appended in both cases. *)
Theorem export_path_extension self format filepath :
  match export self format filepath with
  | Written path _ | Raised (Some path) =>
      endswith path (extension format) = true
      ∧ path = if decide (format ∈ [lit "dict"; lit "dictionary"])
               then filepath ++ lit ".txt"
               else if endswith filepath (extension format) then filepath
               else filepath ++ extension format
  | _ => True
  end.
Proof.
  unfold export, extension.
  destruct (decide (format ∈ [lit "Excel"; lit "excel"; lit "xlsx"])).
  { destruct (dict self) as [d|]; [|done].
    destruct (foldl excel_step (Some (1, ∅)) d) as [[row cells]|]; [|done].
    split; [apply with_extension_endswith|].
    rewrite decide_False; [done|].
    revert e. rewrite !elem_of_cons, !elem_of_nil.
    intros [->|[->|[->|[]]]] [?|[?|[]]]; done. }
  destruct (decide (format ∈ [lit "dict"; lit "dictionary"])).
  { split; [apply endswith_app|done]. }
  destruct (decide (format ∈ [lit "json"; lit "JSON"])).
  { split; [apply with_extension_endswith|done]. }
  destruct (decide (format ∈ [lit "Structure"; lit "structure"])).
  { destruct (structure self);
      (split; [apply with_extension_endswith|done]). }
  destruct (decide (format ∈ [lit "list"; lit "List"])).
  { split; [apply with_extension_endswith|done]. }
  destruct (decide (format ∈ [lit "raw"; lit "Raw"])); [|done].
  destruct (hl7 self); (split; [apply with_extension_endswith|done]).
Qed.



End exports.

(** * Further properties: the comparison sheet *)

Section comparison_sheet.












End comparison_sheet.

(** * Further properties: the report and the dictionary fail together *)

Section report_and_dictionary.

Lemma gen_structure_some_iff segs t : ∀ path level indent,
  is_Some (_gen_structure segs t path level indent)
  ↔ is_Some (_gen_dict segs t path).
Proof.
  induction t as [text|items IH] using tree_ind; intros path level indent;
    [done|].
  cbn [_gen_structure _gen_dict]. generalize (@nil ascii) at 1.
  generalize (@nil (str * str)). generalize 0.
  induction IH as [|item items Hitem _ IHitems]; intros index acc result;
    cbn [gen_structure_loop gen_dict_loop]; [done|].
  destruct (new_path segs path index) as [p|]; cbn [mbind option_bind];
    [|done].
  specialize (Hitem p (level + 1) (indent + 4)%Z).
  destruct (_gen_structure segs item p (level + 1) (indent + 4))
    as [sub|] eqn:Hs, (_gen_dict segs item p) as [d|] eqn:Hd;
    cbn [mbind option_bind].
  - apply IHitems.
  - exfalso. by eapply is_Some_None, Hitem.
  - exfalso. by eapply is_Some_None, Hitem.
  - done.
Qed.

(** X13: on an object with an embedded list, [structure] returns a report
    exactly when [list_to_dict] succeeds: both raise on the same lists,
    those for which a path cannot be taken from the segment table. *)
Theorem structure_with_list_to_dict self data :
  elist self = Some data →
  is_Some (structure self) ↔ is_Some (list_to_dict self).
Proof.
  intros Hdata. unfold structure, list_to_dict. rewrite Hdata.
  cbn [mbind option_bind]. rewrite gen_structure_some_iff.
  destruct (_gen_dict _ _ _); cbn; [|done].
  split; by eexists.
Qed.

Lemma structure_with_list_to_dict_witness :
  elist scenario_object
  = Some [Node [Leaf (lit "|"); Leaf (lit "^~\&"); Leaf (lit "App");
                Leaf (lit "Fac")];
          Node [Leaf (lit "A01"); Leaf (lit "20110613083617")]]
  ∧ (is_Some (structure scenario_object)
     ↔ is_Some (list_to_dict scenario_object)).
Proof.
  split; [reflexivity|].
  exact (structure_with_list_to_dict scenario_object _ eq_refl).
Defined.

End report_and_dictionary.
